(** * HoldingManager: the ingestion pipeline of [App.tsx]

    A shallow embedding of the decision logic of the holdings manager:
    owner extraction from a file name, format detection on a raw sheet,
    record extraction, the pivot fold and the sorted view.

    Conventions of the embedding.

    - A JavaScript string is a [string]; every character stands for one
      UTF-16 code unit below 256, so the white space of [trim] and of
      the regular expression class [\s] is TAB, LF, VT, FF, CR, SP and
      NBSP, and [toLowerCase] is the Latin-1 case map.
    - A JavaScript number is a [number]: [NaN], the two infinities, or a
      finite decimal [mant / 10^scale] with exact arithmetic.  Rounding
      to binary64, overflow and the sign of zero are not modelled; on
      integers whose sums stay below 2^53 in magnitude, share counts
      for instance, exact arithmetic is what binary64 computes, and the
      statements that rest on sums are made for such integers.
    - A JavaScript object used as a dictionary is an association list in
      insertion order that holds its own properties; a key that names a
      property inherited from [Object.prototype] (such as "constructor")
      is outside the model, and the statements that rest on reads of
      the pivot table are made for records without such a name.
    - [Array.prototype.sort] is a stable insertion sort; the host's
      [localeCompare] is a parameter of the sorted view. *)

From Stdlib Require Import ZArith NArith QArith Lia Bool Ascii String DecimalString DecimalN.
From stdpp Require Import base list strings.

Local Open Scope string_scope.
Local Open Scope list_scope.
Local Open Scope Z_scope.

(** ** Characters and strings *)

Module JSString.

Definition code (c : ascii) : N := N_of_ascii c.

Definition between (lo hi n : N) : bool := (lo <=? n)%N && (n <=? hi)%N.

(** WhiteSpace and LineTerminator code units below 256. *)
Definition is_space (c : ascii) : bool :=
  between 9 13 (code c) || (code c =? 32)%N || (code c =? 160)%N.

Definition is_digit (c : ascii) : bool := between 48 57 (code c).
Definition is_upper (c : ascii) : bool := between 65 90 (code c).
Definition is_lower (c : ascii) : bool := between 97 122 (code c).
Definition is_alpha (c : ascii) : bool := is_upper c || is_lower c.

(** [toLowerCase] on one code unit: A-Z and the Latin-1 capitals
    (0xC0-0xDE without the multiplication sign 0xD7) move by 32. *)
Definition lower_char (c : ascii) : ascii :=
  if is_upper c || (between 192 222 (code c) && negb (code c =? 215)%N)
  then ascii_of_N (code c + 32) else c.

(** Canonicalisation of the [i] flag against an ASCII pattern: only
    an ASCII letter is mapped onto an ASCII capital. *)
Definition canon (c : ascii) : ascii :=
  if is_lower c then ascii_of_N (code c - 32) else c.

Definition char_eqb (a b : ascii) : bool := (code a =? code b)%N.

Fixpoint toLowerCase (s : string) : string :=
  match s with
  | EmptyString => EmptyString
  | String c s' => String (lower_char c) (toLowerCase s')
  end.

Fixpoint trimStart (s : string) : string :=
  match s with
  | String c s' => if is_space c then trimStart s' else s
  | EmptyString => EmptyString
  end.

Fixpoint all_space (s : string) : bool :=
  match s with
  | EmptyString => true
  | String c s' => is_space c && all_space s'
  end.

Fixpoint trimEnd (s : string) : string :=
  match s with
  | EmptyString => EmptyString
  | String c s' => if all_space s then EmptyString else String c (trimEnd s')
  end.

Definition trim (s : string) : string := trimEnd (trimStart s).

Fixpoint startsWith (p s : string) : bool :=
  match p, s with
  | EmptyString, _ => true
  | String a p', String b s' => char_eqb a b && startsWith p' s'
  | String _ _, EmptyString => false
  end.

(** [s.includes(p)] *)
Fixpoint includes (s p : string) : bool :=
  startsWith p s ||
  match s with
  | EmptyString => false
  | String _ s' => includes s' p
  end.

(** [s.replace(/c/g, r)] for a one-character pattern [c]. *)
Fixpoint replaceAllChar (c : ascii) (r : string) (s : string) : string :=
  match s with
  | EmptyString => EmptyString
  | String a s' =>
      (if char_eqb a c then r else String a EmptyString) +:+ replaceAllChar c r s'
  end.

Fixpoint str_take (n : nat) (s : string) : string :=
  match n, s with
  | S n', String c s' => String c (str_take n' s')
  | _, _ => EmptyString
  end.

Fixpoint str_drop (n : nat) (s : string) : string :=
  match n, s with
  | S n', String _ s' => str_drop n' s'
  | _, _ => s
  end.

Definition is_empty (s : string) : bool :=
  match s with EmptyString => true | _ => false end.

Fixpoint all_chars (p : ascii → bool) (s : string) : bool :=
  match s with
  | EmptyString => true
  | String c s' => p c && all_chars p s'
  end.

End JSString.

(** ** Regular expressions

    A backtracking matcher for the fragment the program's literals use:
    characters and classes, sequence, alternation, the greedy star, the
    lazy plus, one capture group and the two anchors.  The order in
    which alternatives are tried is the one of the language: a greedy
    quantifier tries one more iteration before the continuation, a lazy
    one tries the continuation first. *)

Module Regex.
Import JSString.

Inductive regex : Type :=
| REmpty
| RChar (p : ascii → bool)
| RSeq (r1 r2 : regex)
| RAlt (r1 r2 : regex)
| RStar (r : regex)
| RPlusLazy (r : regex)
| RGroup (r : regex)
| RBegin
| REnd.

(** A literal character under the [i] flag. *)
Definition ci (c : ascii) : regex := RChar (λ a, char_eqb (canon a) (canon c)).

Fixpoint lit_ci (s : string) : regex :=
  match s with
  | EmptyString => REmpty
  | String c s' => RSeq (ci c) (lit_ci s')
  end.

Definition orElse {A} (x : option A) (y : option A) : option A :=
  match x with Some _ => x | None => y end.

Section Matcher.
Context {A : Type}.

(** A matcher takes what is left of the input, the capture so far and
    the continuation. *)
Definition matcher : Type :=
  string → option string → (string → option string → option A) → option A.

(** The greedy star of [step]: one more iteration first, which has to
    consume something, then the continuation.  [n] bounds the number of
    iterations by the length of the input. *)
Fixpoint star_loop (step : matcher) (k : string → option string → option A)
    (n : nat) (s : string) (g : option string) : option A :=
  match n with
  | O => k s g
  | S n' =>
      orElse
        (step s g (λ s' g',
           if (String.length s' <? String.length s)%nat
           then star_loop step k n' s' g' else None))
        (k s g)
  end.

(** The lazy star of [step]: the continuation first. *)
Fixpoint lazy_loop (step : matcher) (k : string → option string → option A)
    (n : nat) (s : string) (g : option string) : option A :=
  orElse (k s g)
    match n with
    | O => None
    | S n' =>
        step s g (λ s' g',
          if (String.length s' <? String.length s)%nat
          then lazy_loop step k n' s' g' else None)
    end.

(** [total] is the length of the whole input, so that [^] can tell
    the start; [s] is what is left of the input, [g] the capture. *)
Variable total : nat.

Fixpoint rmatch (r : regex) (s : string) (g : option string)
    (k : string → option string → option A) {struct r} : option A :=
  match r with
  | REmpty => k s g
  | RChar p =>
      match s with
      | String c s' => if p c then k s' g else None
      | EmptyString => None
      end
  | RSeq r1 r2 => rmatch r1 s g (λ s1 g1, rmatch r2 s1 g1 k)
  | RAlt r1 r2 => orElse (rmatch r1 s g k) (rmatch r2 s g k)
  | RStar r1 => star_loop (rmatch r1) k (String.length s) s g
  | RPlusLazy r1 =>
      rmatch r1 s g (λ s1 g1, lazy_loop (rmatch r1) k (String.length s1) s1 g1)
  | RGroup r1 =>
      rmatch r1 s g (λ s1 _,
        k s1 (Some (str_take (String.length s - String.length s1) s)))
  | RBegin => if (String.length s =? total)%nat then k s g else None
  | REnd => match s with EmptyString => k s g | _ => None end
  end.
End Matcher.

(** A regular expression without a capture group. *)
Fixpoint groupless (r : regex) : bool :=
  match r with
  | RGroup _ => false
  | RSeq r1 r2 | RAlt r1 r2 => groupless r1 && groupless r2
  | RStar r1 | RPlusLazy r1 => groupless r1
  | _ => true
  end.

(** Result of a successful search: the text before the match, the
    text after it and the capture group. *)
Record found := Found { before : string; after : string; group1 : option string }.

Fixpoint search_from (total : nat) (r : regex) (pre : string) (s : string) : option found :=
  match rmatch total r s None (λ s' g, Some (Found pre s' g)) with
  | Some f => Some f
  | None =>
      match s with
      | EmptyString => None
      | String c s' => search_from total r (pre +:+ String c EmptyString) s'
      end
  end.

(** [r.exec(s)] for a regular expression without the [g] flag. *)
Definition exec (r : regex) (s : string) : option found :=
  search_from (String.length s) r EmptyString s.

(** [r.test(s)] *)
Definition test (r : regex) (s : string) : bool :=
  match exec r s with Some _ => true | None => false end.

(** [s.replace(r, '')] for a regular expression without the [g] flag. *)
Definition remove_first (r : regex) (s : string) : string :=
  match exec r s with
  | Some f => before f +:+ after f
  | None => s
  end.

End Regex.

(** ** Owner extraction *)

Import JSString Regex.

(** The class [[^-|_]] *)
Definition not_separator (c : ascii) : bool :=
  negb (char_eqb c "-" || char_eqb c "|" || char_eqb c "_").

(** [/CLIENT\s*([^-|_]+?)\s*CLIENT-ID/i] *)
Definition re_client : regex :=
  RSeq (lit_ci "CLIENT")
    (RSeq (RStar (RChar is_space))
       (RSeq (RGroup (RPlusLazy (RChar not_separator)))
          (RSeq (RStar (RChar is_space)) (lit_ci "CLIENT-ID")))).

(** [/\.(xlsx|csv)$/i] *)
Definition re_extension : regex :=
  RSeq (ci ".") (RSeq (RAlt (lit_ci "xlsx") (lit_ci "csv")) REnd).

Definition extractOwnerFromFilename (filename : string) : string :=
  match exec re_client filename with
  | Some {| group1 := Some name |} =>
      replaceAllChar "-" " " (replaceAllChar "_" " " (trim name))
  | _ => remove_first re_extension filename
  end.

(** ** Numbers *)

Module JSNumber.
Import JSString.

(** A finite value [mant / 10^scale]. *)
Record dec := Dec { mant : Z; scale : nat }.

Inductive number : Type :=
| NaN
| Inf (neg : bool)
| Fin (d : dec).

Definition pow10 (n : nat) : Z := 10 ^ Z.of_nat n.

Definition of_Z (z : Z) : number := Fin (Dec z 0).

Definition dec_add (x y : dec) : dec :=
  Dec (mant x * pow10 (scale y) + mant y * pow10 (scale x)) (scale x + scale y).

(** [x + y], exact.  The program rounds the sum to binary64: the two
    agree when [x], [y] and the sum are integers of magnitude 2^53 at
    most, and the statements that rest on sums are made there
    ([safeRecords]). *)
Definition add (x y : number) : number :=
  match x, y with
  | NaN, _ | _, NaN => NaN
  | Inf a, Inf b => if Bool.eqb a b then Inf a else NaN
  | Inf a, Fin _ => Inf a
  | Fin _, Inf b => Inf b
  | Fin a, Fin b => Fin (dec_add a b)
  end.

Definition opp (x : number) : number :=
  match x with
  | NaN => NaN
  | Inf a => Inf (negb a)
  | Fin d => Fin (Dec (- mant d) (scale d))
  end.

(** [x - y] *)
Definition sub (x y : number) : number := add x (opp y).

(** ToBoolean: [NaN] and zero are falsy. *)
Definition truthy (x : number) : bool :=
  match x with
  | NaN => false
  | Inf _ => true
  | Fin d => negb (mant d =? 0)
  end.

(** [x !== 0] *)
Definition nonzero (x : number) : bool :=
  match x with
  | Fin d => negb (mant d =? 0)
  | _ => true
  end.

(** The sign a sort comparator's result is read by: [NaN] counts as 0. *)
Definition sign (x : number) : comparison :=
  match x with
  | NaN => Eq
  | Inf true => Lt
  | Inf false => Gt
  | Fin d => mant d ?= 0
  end.

Definition is_finite (x : number) : bool :=
  match x with Fin _ => true | _ => false end.

Definition is_negative (x : number) : bool :=
  match x with
  | NaN => false
  | Inf neg => neg
  | Fin d => mant d <? 0
  end.

(** *** Number to string (Number::toString, radix 10) *)

Definition digits (n : Z) : string := NilZero.string_of_uint (N.to_uint (Z.to_N n)).

(** Drop the zeros at the end of the fraction. *)
Fixpoint strip_fraction (m : Z) (sc : nat) : Z * nat :=
  match sc with
  | O => (m, O)
  | S sc' => if m mod 10 =? 0 then strip_fraction (m / 10) sc' else (m, sc)
  end.

Fixpoint all_zero (s : string) : bool :=
  match s with
  | EmptyString => true
  | String c s' => char_eqb c "0" && all_zero s'
  end.

Fixpoint strip_zeros (s : string) : string :=
  match s with
  | EmptyString => EmptyString
  | String c s' => if all_zero s then EmptyString else String c (strip_zeros s')
  end.

Fixpoint zeros (n : nat) : string :=
  match n with O => EmptyString | S n' => String "0" (zeros n') end.

(** The digits [s] (there are [k] of them) and the exponent [n] are
    those of the specification: the value is [0.s * 10^n]. *)
Definition dec_toString (d : dec) : string :=
  if mant d =? 0 then "0" else
  let '(m, sc) := strip_fraction (Z.abs (mant d)) (scale d) in
  let all := digits m in
  let s := strip_zeros all in
  let k := Z.of_nat (String.length s) in
  let n := Z.of_nat (String.length all) - Z.of_nat sc in
  let body :=
    if (k <=? n) && (n <=? 21) then all
    else if (0 <? n) && (n <=? 21) then
      str_take (Z.to_nat n) s +:+ "." +:+ str_drop (Z.to_nat n) s
    else if (-6 <? n) && (n <=? 0) then
      "0." +:+ zeros (Z.to_nat (- n)) +:+ s
    else
      let e := n - 1 in
      let es := (if e <? 0 then "-" else "+") +:+ digits (Z.abs e) in
      if k =? 1 then s +:+ "e" +:+ es
      else str_take 1 s +:+ "." +:+ str_drop 1 s +:+ "e" +:+ es in
  (if mant d <? 0 then "-" else "") +:+ body.

(** [String(x)] *)
Definition toString (x : number) : string :=
  match x with
  | NaN => "NaN"
  | Inf false => "Infinity"
  | Inf true => "-Infinity"
  | Fin d => dec_toString d
  end.

(** *** [parseFloat] *)

Fixpoint span_digits (s : string) : string * string :=
  match s with
  | String c s' =>
      if is_digit c then let '(ds, r) := span_digits s' in (String c ds, r)
      else (EmptyString, s)
  | EmptyString => (EmptyString, EmptyString)
  end.

Fixpoint digits_value (acc : Z) (ds : string) : Z :=
  match ds with
  | EmptyString => acc
  | String c ds' => digits_value (acc * 10 + Z.of_N (code c - 48)) ds'
  end.

Definition split_sign (s : string) : bool * string :=
  match s with
  | String c s' =>
      if char_eqb c "-" then (true, s')
      else if char_eqb c "+" then (false, s')
      else (false, s)
  | EmptyString => (false, s)
  end.

(** The value of an ExponentPart at the head of [s]; 0 when there is
    none, in which case the literal ends before it. *)
Definition exponent_part (s : string) : Z :=
  match s with
  | String c s1 =>
      if char_eqb c "e" || char_eqb c "E" then
        let '(neg, s2) := split_sign s1 in
        let '(ds, _) := span_digits s2 in
        if is_empty ds then 0
        else if neg then - digits_value 0 ds else digits_value 0 ds
      else 0
  | EmptyString => 0
  end.

(** The longest prefix of the trimmed input that is a
    StrDecimalLiteral, read exactly; [NaN] when there is none.  The
    program rounds what it reads to binary64 (to an infinity beyond the
    range, to 0 below it): the two agree when the literal is a value
    binary64 holds, an integer of magnitude 2^53 at most for one. *)
Definition parseFloat (str : string) : number :=
  let '(neg, s1) := split_sign (trimStart str) in
  if startsWith "Infinity" s1 then Inf neg else
  let '(ip, s2) := span_digits s1 in
  let '(fp, s3) :=
    match s2 with
    | String c r => if char_eqb c "." then span_digits r else (EmptyString, s2)
    | EmptyString => (EmptyString, s2)
    end in
  if is_empty ip && is_empty fp then NaN else
  let m := digits_value 0 (ip +:+ fp) in
  let m := if neg then - m else m in
  let e10 := exponent_part s3 - Z.of_nat (String.length fp) in
  if 0 <=? e10 then Fin (Dec (m * 10 ^ e10) 0)
  else Fin (Dec m (Z.to_nat (- e10))).

End JSNumber.

Import JSNumber.

(** ** Raw sheets *)

(** A cell of [unknown[][]]: nothing ([undefined], [null], a hole), a
    string, a number or a boolean. *)
Inductive cell : Type :=
| CEmpty
| CStr (s : string)
| CNum (n : number)
| CBool (b : bool).

(** A row is an array of cells, or nothing at all. *)
Definition sheet : Type := list (option (list cell)).

(** [row[j]]: reading past the end gives [undefined]. *)
Definition at_index (cells : list cell) (j : nat) : cell := nth j cells CEmpty.

Definition cell_truthy (c : cell) : bool :=
  match c with
  | CEmpty => false
  | CStr s => negb (is_empty s)
  | CNum n => truthy n
  | CBool b => b
  end.

(** [String(c)] *)
Definition cell_toString (c : cell) : string :=
  match c with
  | CEmpty => "undefined"
  | CStr s => s
  | CNum n => toString n
  | CBool true => "true"
  | CBool false => "false"
  end.

(** [String(c || dflt)] *)
Definition String_or (c : cell) (dflt : string) : string :=
  if cell_truthy c then cell_toString c else dflt.

(** [typeof c === 'number'] *)
Definition is_number (c : cell) : bool :=
  match c with CNum _ => true | _ => false end.

(** [l.slice(start)] *)
Definition slice_from {A} (start : Z) (l : list A) : list A :=
  if start <? 0 then drop (Z.to_nat (Z.max (Z.of_nat (length l) + start) 0)) l
  else drop (Z.to_nat start) l.

(** ** Format detection *)

Record ColumnMapping := Mapping {
  dataStartRow : Z;
  companyColIndex : nat;
  totalColIndex : nat
}.

Definition alnum_ci : regex := RChar (λ c, is_alpha c || is_digit c).
Definition alpha_ci : regex := RChar is_alpha.

(** [/^INE[A-Z0-9]+$/i] *)
Definition re_ine : regex :=
  RSeq RBegin (RSeq (lit_ci "INE") (RSeq (RSeq alnum_ci (RStar alnum_ci)) REnd)).

(** [/^[A-Z]{2}[A-Z0-9]+$/i] *)
Definition re_code : regex :=
  RSeq RBegin (RSeq (RSeq alpha_ci alpha_ci) (RSeq (RSeq alnum_ci (RStar alnum_ci)) REnd)).

Definition hasISIN (cells : list cell) : bool :=
  let firstCell := trim (String_or (at_index cells 0) "") in
  test re_ine firstCell || test re_code firstCell.

Definition hasNumericData (cells : list cell) : bool :=
  (10 <=? length cells)%nat && is_number (at_index cells 2) && is_number (at_index cells 9).

Definition isCompanyHeader (cellValue : string) : bool :=
  includes cellValue "company" || includes cellValue "scrip" ||
  includes cellValue "name of security" || includes cellValue "security name".

Definition isTotalHeader (cellValue : string) : bool :=
  String.eqb cellValue "total" || String.eqb cellValue "free" ||
  includes cellValue "total qty" || includes cellValue "quantity" ||
  includes cellValue "holding".

(** [String(row[j] || '').toLowerCase().trim()] *)
Definition headerText (c : cell) : string := trim (toLowerCase (String_or c "")).

(** The inner loop over the cells [j, j+1, ...] of row [i]. *)
Fixpoint scanCells (i j : nat) (cells : list cell) (st : ColumnMapping) : ColumnMapping :=
  match cells with
  | [] => st
  | c :: rest =>
      let cellValue := headerText c in
      let st1 :=
        if isCompanyHeader cellValue
        then Mapping (Z.of_nat i + 1) j (totalColIndex st)
        else st in
      let st2 :=
        if isTotalHeader cellValue
        then Mapping (dataStartRow st1) (companyColIndex st1) j
        else st1 in
      scanCells i (S j) rest st2
  end.

(** The outer loop over the rows [i, i+1, ...]; [continue] goes to the
    next row with the state as it is, [break] returns. *)
Fixpoint scanRows (i : nat) (rows : sheet) (st : ColumnMapping) : ColumnMapping :=
  match rows with
  | [] => st
  | row :: rest =>
      match row with
      | None => scanRows (S i) rest st
      | Some cells =>
          if (length cells <? 3)%nat then scanRows (S i) rest st
          else if hasISIN cells || hasNumericData cells
          then Mapping (Z.of_nat i) (companyColIndex st) (totalColIndex st)
          else scanRows (S i) rest (scanCells i 0 cells st)
      end
  end.

Definition detectFormat (rawData : sheet) : ColumnMapping :=
  let st := scanRows 0 (take (Nat.min 15 (length rawData)) rawData) (Mapping (-1) 1 9) in
  if dataStartRow st <? 0
  then Mapping 5 (companyColIndex st) (totalColIndex st)
  else st.

(** ** Record extraction *)

Record HoldingData := Holding {
  companyName : string;
  total : number;
  ownerName : string
}.

(** The quantity read at the total column. *)
Definition parseTotal (totalValue : cell) : number :=
  match totalValue with
  | CNum n => n
  | _ =>
      let parsed := parseFloat (replaceAllChar "," "" (String_or totalValue "0")) in
      if truthy parsed then parsed else of_Z 0
  end.

Definition isSummaryName (lowerName : string) : bool :=
  includes lowerName "total" || includes lowerName "grand" || includes lowerName "summary".

(** [String(row[companyColIndex] || '').trim()] *)
Definition rowCompanyName (m : ColumnMapping) (cells : list cell) : string :=
  trim (String_or (at_index cells (companyColIndex m)) "").

Definition rowQuantity (m : ColumnMapping) (cells : list cell) : number :=
  parseTotal (at_index cells (totalColIndex m)).

(** One turn of the loop over the data rows: the record pushed, if any. *)
Definition extractRow (m : ColumnMapping) (owner : string) (row : option (list cell))
    : option HoldingData :=
  match row with
  | None => None
  | Some cells =>
      if (length cells <=? Nat.max (companyColIndex m) (totalColIndex m))%nat then None
      else
        let name := rowCompanyName m cells in
        let qty := rowQuantity m cells in
        if isSummaryName (toLowerCase name) then None
        else if negb (is_empty name) && (1 <? String.length name)%nat && nonzero qty
        then Some (Holding name qty owner)
        else None
  end.

Definition extractRecords (m : ColumnMapping) (owner : string) (rawData : sheet)
    : list HoldingData :=
  omap (extractRow m owner) (slice_from (dataStartRow m) rawData).

(** ** Objects as dictionaries *)

Module JSObject.
Section Obj.
Context {V : Type}.

Definition obj : Type := list (string * V).

(** [o[k]] on own properties; [None] is [undefined].  On an object
    that has no key [k] of its own the program finds what
    [Object.prototype] holds under [k] ([inheritedKey]): the two agree
    on every other key, and the statements that rest on reads of the
    pivot table are made for such keys ([plainRecord]). *)
Fixpoint get (k : string) (o : obj) : option V :=
  match o with
  | [] => None
  | (k', v) :: o' => if String.eqb k' k then Some v else get k o'
  end.

(** [o[k] = v]: an existing key keeps its place, a new one goes last. *)
Fixpoint set (k : string) (v : V) (o : obj) : obj :=
  match o with
  | [] => [(k, v)]
  | (k', v') :: o' =>
      if String.eqb k' k then (k', v) :: o' else (k', v') :: set k v o'
  end.

(** A key that is an array index: a canonical numeric string of at
    most 2^32 - 2. *)
Definition array_index (k : string) : option Z :=
  if negb (is_empty k) && all_chars is_digit k
     && (String.eqb k "0" || negb (startsWith "0" k))
     && (digits_value 0 k <=? 4294967294)
  then Some (digits_value 0 k) else None.

Fixpoint insert_index (i : Z) (e : string * V) (l : list (Z * (string * V)))
    : list (Z * (string * V)) :=
  match l with
  | [] => [(i, e)]
  | (j, e') :: l' =>
      if i <? j then (i, e) :: l else (j, e') :: insert_index i e l'
  end.

Fixpoint index_entries (o : obj) : list (Z * (string * V)) :=
  match o with
  | [] => []
  | e :: o' =>
      match array_index (fst e) with
      | Some i => insert_index i e (index_entries o')
      | None => index_entries o'
      end
  end.

Fixpoint name_entries (o : obj) : obj :=
  match o with
  | [] => []
  | e :: o' =>
      match array_index (fst e) with
      | Some _ => name_entries o'
      | None => e :: name_entries o'
      end
  end.

(** [Object.entries(o)]: array indices in ascending order, then the
    other keys in insertion order. *)
Definition entries (o : obj) : obj :=
  map snd (index_entries o) ++ name_entries o.

Definition keys (o : obj) : list string := map fst (entries o).
End Obj.
Arguments obj : clear implicits.
End JSObject.

Import JSObject.

(** ** The pivot table *)

Definition PivotRow : Type := obj number.
Definition PivotData : Type := obj PivotRow.

Definition TotalHoldings : string := "Total Holdings".

(** [v || 0] *)
Definition or0 (v : option number) : number :=
  match v with
  | Some x => if truthy x then x else of_Z 0
  | None => of_Z 0
  end.

(** ToNumber of a property read: [undefined] is [NaN]. *)
Definition toNumber (v : option number) : number :=
  match v with Some x => x | None => NaN end.

(** The body of [combinedData.forEach].  The row object is created when
    the company has none, updated through its reference, and the final
    [set] writes the updated row where the reference lives.  This is the
    program's fold for a record whose company and owner are not property
    names of [Object.prototype] ([plainRecord]); for such a name the
    program reads, and writes onto, the built-in object it finds. *)
Definition foldItem (pivot : PivotData) (item : HoldingData) : PivotData :=
  let row0 :=
    match get (companyName item) pivot with
    | None => [(TotalHoldings, of_Z 0)]
    | Some row => row
    end in
  let row1 :=
    set (ownerName item) (add (or0 (get (ownerName item) row0)) (total item)) row0 in
  let row2 :=
    set TotalHoldings (add (toNumber (get TotalHoldings row1)) (total item)) row1 in
  set (companyName item) row2 pivot.

Definition pivotFold (pivot : PivotData) (records : list HoldingData) : PivotData :=
  fold_left foldItem records pivot.

Definition buildPivot (combinedData : list HoldingData) : PivotData :=
  pivotFold [] combinedData.

(** ** Sorted view *)

Inductive SortDirection : Type := asc | desc.

Section SortEngine.
(** [a.localeCompare(b)] depends on the host's collation. *)
Variable localeCompare : string → string → number.

Definition compareEntries (sortColumn : string) (sortDirection : SortDirection)
    (a b : string * PivotRow) : number :=
  if String.eqb sortColumn "Company Name" then
    match sortDirection with
    | asc => localeCompare (fst a) (fst b)
    | desc => localeCompare (fst b) (fst a)
    end
  else
    let '(aVal, bVal) :=
      if String.eqb sortColumn TotalHoldings
      then (toNumber (get TotalHoldings (snd a)), toNumber (get TotalHoldings (snd b)))
      else (or0 (get sortColumn (snd a)), or0 (get sortColumn (snd b))) in
    match sortDirection with
    | asc => sub aVal bVal
    | desc => sub bVal aVal
    end.

(** [Array.prototype.sort] is stable; with a consistent comparator
    every stable sort gives the same array.  This one inserts each
    element in front of the sorted rest, behind nothing it ties with.
    With a comparator that is not consistent (a [NaN] among the values
    compared) the order the engine gives is implementation-defined; the
    statements on the order of the view are made for finite values and
    for a collation that is an order. *)
Fixpoint insert_sorted {A} (cmp : A → A → number) (x : A) (l : list A) : list A :=
  match l with
  | [] => [x]
  | y :: l' =>
      match sign (cmp x y) with
      | Gt => y :: insert_sorted cmp x l'
      | _ => x :: l
      end
  end.

Definition stable_sort {A} (cmp : A → A → number) (l : list A) : list A :=
  foldr (insert_sorted cmp) [] l.

Definition getSortedEntries (sortColumn : option string) (sortDirection : SortDirection)
    (data : PivotData) : list (string * PivotRow) :=
  match sortColumn with
  | None => entries data
  | Some column =>
      if is_empty column then entries data
      else stable_sort (compareEntries column sortDirection) (entries data)
  end.
End SortEngine.

(** ** Processing uploaded files *)

Inductive AlertType : Type := success | error | warning | info.

Record Alert := MkAlert { type : AlertType; message : string }.

(** An uploaded file: its name, and what decoding its first sheet
    gives, rows or the text of the exception. *)
Record File := MkFile { name : string; content : sheet + string }.

Record AppState := MkState {
  allData : list HoldingData;
  pivotData : option PivotData;
  alerts : list Alert
}.

Definition nat_toString (n : nat) : string := toString (of_Z (Z.of_nat n)).

(** The body of the loop over the uploaded files, for one file. *)
Definition processFile (file : File) : list HoldingData * list Alert :=
  let owner := extractOwnerFromFilename (name file) in
  match content file with
  | inl rawData =>
      let m := detectFormat rawData in
      let rows := extractRecords m owner rawData in
      (rows,
       if (length rows =? 0)%nat
       then [MkAlert warning
               ("No holding data found in " +:+ name file +:+ ". Check file format.")]
       else [])
  | inr err =>
      ([], [MkAlert error ("Error processing " +:+ name file +:+ ": " +:+ err)])
  end.

Definition processFiles (st : AppState) (uploadedFiles : list File) : AppState :=
  let results := map processFile uploadedFiles in
  let newData := concat (map fst results) in
  let fileAlerts := concat (map snd results) in
  let combinedData := allData st ++ newData in
  if (0 <? length newData)%nat || (0 <? length (allData st))%nat then
    MkState combinedData (Some (buildPivot combinedData))
      (alerts st ++ fileAlerts ++
       if (0 <? length newData)%nat
       then [MkAlert success
               (nat_toString (length uploadedFiles) +:+ " file(s) processed - found "
                +:+ nat_toString (length newData) +:+ " holdings!")]
       else [])
  else
    MkState combinedData (pivotData st)
      (alerts st ++ fileAlerts ++
       [MkAlert warning "No holding data could be extracted from the uploaded files."]).

(** ** Sample data *)

Definition sampleSheet : sheet :=
  [ Some [CStr "Holdings statement"];
    None;
    Some [CStr "Sr"; CStr "Company Name"; CStr "Folio"; CStr "Quantity"];
    Some [CNum (of_Z 1); CStr "Infosys"; CStr "F1"; CStr "1,200"];
    Some [CNum (of_Z 2); CStr "TCS"; CStr "F2"; CNum (of_Z (-5))];
    Some [CNum (of_Z 3); CStr "Grand Total"; CStr ""; CNum (of_Z 100)];
    Some [CNum (of_Z 4); CStr "X"; CStr "F4"; CNum (of_Z 100)];
    Some [CNum (of_Z 5); CStr "Wipro"; CStr "F5"; CStr "n/a"] ].

Definition sampleTable : PivotData :=
  buildPivot [Holding "A" (of_Z 50) "Alice"; Holding "B" (of_Z 30) "Alice";
              Holding "C" (of_Z 10) "Bob"; Holding "B" (of_Z 20) "Bob"].

(** ** Vocabulary of the statements *)

(** A row the detector passes over: no row at all, or fewer than 3 cells. *)
Definition ignoredRow (row : option (list cell)) : Prop :=
  match row with
  | None => True
  | Some cells => (length cells < 3)%nat
  end.

(** No cell of the row reads as a header. *)
Definition noHeader (cells : list cell) : Prop :=
  ∀ c, c ∈ cells →
    isCompanyHeader (headerText c) = false ∧ isTotalHeader (headerText c) = false.

(** The rational a finite value stands for. *)
Definition dec_value (d : dec) : Q := mant d # Z.to_pos (pow10 (scale d)).

(** Two numbers are the same value: both [NaN], the same infinity, or
    finite with the same rational value. *)
Definition same_number (x y : number) : Prop :=
  match x, y with
  | NaN, NaN => True
  | Inf a, Inf b => a = b
  | Fin a, Fin b => (dec_value a == dec_value b)%Q
  | _, _ => False
  end.

Definition opt_rel {A} (R : A → A → Prop) (x y : option A) : Prop :=
  match x, y with
  | Some a, Some b => R a b
  | None, None => True
  | _, _ => False
  end.

(** Two rows have the same keys and the same value at each key. *)
Definition same_row (r r' : PivotRow) : Prop :=
  ∀ owner, opt_rel same_number (get owner r) (get owner r').

(** Two tables have the same companies and the same row for each. *)
Definition same_table (t t' : PivotData) : Prop :=
  ∀ company, opt_rel same_row (get company t) (get company t').

(** The sum of a row over its owner keys, "Total Holdings" left out. *)
Definition ownerSum (row : PivotRow) : number :=
  foldr (λ e acc, if String.eqb (fst e) TotalHoldings then acc else add (snd e) acc)
    (of_Z 0) row.

(** The invariant of the pivot table as the specification words it. *)
Definition totalIsOwnerSum (t : PivotData) : Prop :=
  ∀ company row, get company t = Some row →
    ∃ T, get TotalHoldings row = Some T ∧ same_number T (ownerSum row).

Definition finiteQuantity (h : HoldingData) : Prop := is_finite (total h) = true.

(** The rational value of a number, 0 for what is not finite. *)
Definition qv (x : number) : Q :=
  match x with Fin d => dec_value d | _ => 0%Q end.

Definition qvo (v : option number) : Q :=
  match v with Some x => qv x | None => 0%Q end.

Definition finite_opt (v : option number) : Prop :=
  ∀ x, v = Some x → is_finite x = true.

(** The rational sum of a row over its owner keys. *)
Fixpoint qsum (row : PivotRow) : Q :=
  match row with
  | [] => 0%Q
  | (k, v) :: row' => if String.eqb k TotalHoldings then qsum row' else (qv v + qsum row')%Q
  end.

(** The two writes of [foldItem] on the row of the company. *)
Definition rowStep (owner : string) (qty : number) (row : PivotRow) : PivotRow :=
  let row1 := set owner (add (or0 (get owner row)) qty) row in
  set TotalHoldings (add (toNumber (get TotalHoldings row1)) qty) row1.

Definition initialRow : PivotRow := [(TotalHoldings, of_Z 0)].

(** Every value of the row is finite and the total is there. *)
Definition finiteRow (row : PivotRow) : Prop :=
  Forall (λ e, is_finite (snd e) = true) row ∧ is_Some (get TotalHoldings row).

Definition finiteTable (t : PivotData) : Prop :=
  ∀ company row, get company t = Some row → finiteRow row.

(** The invariant in rational terms, on a row whose values are finite. *)
Definition rowInv (row : PivotRow) : Prop :=
  finiteRow row ∧ ∃ T, get TotalHoldings row = Some T ∧ (qv T == qsum row)%Q.

Definition tableInv (t : PivotData) : Prop :=
  ∀ company row, get company t = Some row → rowInv row.

(** A record the pivot fold treats as the specification expects: a
    finite quantity under an owner that is not the reserved key. *)
Definition regularRecord (h : HoldingData) : Prop :=
  finiteQuantity h ∧ ownerName h ≠ TotalHoldings.

Definition sampleRecords : list HoldingData :=
  [Holding "Infosys" (of_Z 100) "Alice"; Holding "Infosys" (of_Z 50) "Bob";
   Holding "TCS" (of_Z 20) "Bob"].

(** The state before any upload, and after a series of uploads of
    which none starts before the one before it has finished and the
    component has rendered again: the callback then reads the records
    kept so far.  (Two calls that overlap both read the records of the
    render they started in.) *)
Definition initialState : AppState := MkState [] None [].

Definition uploads (batches : list (list File)) : AppState :=
  fold_left processFiles batches initialState.

(** The pivot shown is the fold of all the records kept so far. *)
Definition stateInv (st : AppState) : Prop :=
  pivotData st
  = match allData st with
    | [] => None
    | _ => Some (buildPivot (allData st))
    end.

Definition holdingsSheet (rows : list (string * cell)) : sheet :=
  Some [CStr "Sr"; CStr "Company"; CStr "Quantity"]
  :: map (λ r, Some [CEmpty; CStr (fst r); snd r]) rows.

(** A file whose name makes its owner the reserved key. *)
Definition totalHoldingsFile : File :=
  MkFile "Total Holdings.xlsx" (inl (holdingsSheet [("Infosys", CNum (of_Z 7))])).

(** Two files with the same rows in two orders. *)
Definition infiniteFirstFile : File :=
  MkFile "Alice.csv"
    (inl (holdingsSheet [("Infosys", CStr "Infinity"); ("Infosys", CStr "-Infinity");
                         ("Infosys", CStr "5")])).

Definition infiniteLastFile : File :=
  MkFile "Alice.csv"
    (inl (holdingsSheet [("Infosys", CStr "5"); ("Infosys", CStr "Infinity");
                         ("Infosys", CStr "-Infinity")])).

Definition negativeFile : File :=
  MkFile "Alice.csv"
    (inl (holdingsSheet [("TCS", CNum (of_Z (-5))); ("Wipro", CStr "Infinity")])).

(** * Further functions of the application *)

(** ** Owner columns *)

(** [owners.add(key)] on a [Set], which keeps insertion order. *)
Definition set_add (k : string) (l : list string) : list string :=
  if existsb (String.eqb k) l then l else l ++ [k].

(** The inner [forEach] of [getOwners] over the keys of one row. *)
Definition addOwners (owners : list string) (row : PivotRow) : list string :=
  fold_left (λ acc key, if negb (String.eqb key TotalHoldings) then set_add key acc else acc)
    (keys row) owners.

Definition getOwners (data : PivotData) : list string :=
  fold_left addOwners (map snd (entries data)) [].

(** ** Column sort state *)

Record SortState := MkSort {
  sortColumn : option string;
  sortDirection : SortDirection
}.

Definition flipDirection (d : SortDirection) : SortDirection :=
  match d with asc => desc | desc => asc end.

Definition defaultDirection (column : string) : SortDirection :=
  if String.eqb column "Company Name" then asc else desc.

Definition handleSort (column : string) (st : SortState) : SortState :=
  match sortColumn st with
  | Some current =>
      if String.eqb current column
      then MkSort (sortColumn st) (flipDirection (sortDirection st))
      else MkSort (Some column) (defaultDirection column)
  | None => MkSort (Some column) (defaultDirection column)
  end.

(** The state of the two hooks when the component mounts. *)
Definition initialSort : SortState := MkSort None asc.



(** ** What the pivot table holds *)

(** The cell the table holds, of its own, for a company and a key. *)
Definition pivotCell (t : PivotData) (company key : string) : option number :=
  match get company t with
  | Some row => get key row
  | None => None
  end.

(** The records of one company, and those of one company and owner. *)
Definition companyRecords (company : string) (records : list HoldingData)
    : list HoldingData :=
  List.filter (λ h, String.eqb (companyName h) company) records.

Definition cellRecords (company owner : string) (records : list HoldingData)
    : list HoldingData :=
  List.filter (λ h, String.eqb (companyName h) company && String.eqb (ownerName h) owner)
    records.

Definition sumQuantities (l : list HoldingData) : number :=
  foldr (λ h acc, add (total h) acc) (of_Z 0) l.

(** The row of a company holds the sums of the records of the company. *)
Definition rowIsSums (records : list HoldingData) (company : string) (row : PivotRow)
    : Prop :=
  opt_rel same_number (get TotalHoldings row)
    (Some (sumQuantities (companyRecords company records)))
  ∧ ∀ owner, owner ≠ TotalHoldings →
      match get owner row with
      | Some v =>
          cellRecords company owner records ≠ []
          ∧ same_number v (sumQuantities (cellRecords company owner records))
      | None => cellRecords company owner records = []
      end.

Definition tableIsSums (records : list HoldingData) (t : PivotData) : Prop :=
  ∀ company,
    match get company t with
    | Some row => companyRecords company records ≠ [] ∧ rowIsSums records company row
    | None => companyRecords company records = []
    end.

(** The elements of a list in the order of their first occurrence. *)
Fixpoint firstOccurrences (l : list string) : list string :=
  match l with
  | [] => []
  | x :: l' => x :: List.filter (λ y, negb (String.eqb x y)) (firstOccurrences l')
  end.


(** The two files of the end-to-end scenario. *)
Definition aliceFile : File :=
  MkFile "CLIENT Alice CLIENT-ID.xlsx"
    (inl (holdingsSheet [("Infosys", CNum (of_Z 100))])).

Definition bobFile : File :=
  MkFile "CLIENT Bob CLIENT-ID.xlsx"
    (inl (holdingsSheet [("Infosys", CNum (of_Z 50)); ("TCS", CStr "20")])).


(** ** What the detector answers *)

(** The index of the last cell, counted from [j], whose header text
    satisfies [p]; [acc] when there is none. *)
Fixpoint lastHeaderFrom (p : string → bool) (j : nat) (cells : list cell)
    (acc : option nat) : option nat :=
  match cells with
  | [] => acc
  | c :: rest => lastHeaderFrom p (S j) rest (if p (headerText c) then Some j else acc)
  end.

Definition lastHeader (p : string → bool) (cells : list cell) : option nat :=
  lastHeaderFrom p 0 cells None.

(** A row of 3 cells or more that starts the data. *)
Definition dataRow (row : option (list cell)) : Prop :=
  match row with
  | Some cells => (3 ≤ length cells)%nat ∧ hasISIN cells || hasNumericData cells = true
  | None => False
  end.

(** A row that leaves the scan as it is: passed over, or looked at and
    found neither to start the data nor to hold a header. *)
Definition silentRow (row : option (list cell)) : Prop :=
  ignoredRow row
  ∨ match row with
    | Some cells =>
        hasISIN cells = false ∧ hasNumericData cells = false ∧ noHeader cells
    | None => False
    end.

(** Column [j] of one of the first 15 rows reads as a header for [p]. *)
Definition headerAt (p : string → bool) (rawData : sheet) (j : nat) : Prop :=
  ∃ (i : nat) cells c,
    (i < 15)%nat ∧ rawData !! i = Some (Some cells) ∧ (3 ≤ length cells)%nat
    ∧ cells !! j = Some c ∧ p (headerText c) = true.


(** ** Alerts: [addAlert] and its timer *)

(** What happens to the list of alerts: [addAlert] appends one and sets
    a timer; a timer that fires removes the alert at index 0. *)
Inductive AlertEvent : Type :=
| AddAlert (a : Alert)
| AlertTimeout.

(** [l.filter((_, i) => p(i))], the indices counted from [i]. *)
Fixpoint filter_index {A} (p : nat → bool) (i : nat) (l : list A) : list A :=
  match l with
  | [] => []
  | x :: l' => if p i then x :: filter_index p (S i) l' else filter_index p (S i) l'
  end.

Definition alertStep (prev : list Alert) (e : AlertEvent) : list Alert :=
  match e with
  | AddAlert a => prev ++ [a]
  | AlertTimeout => filter_index (λ i, negb (i =? 0)%nat) 0 prev
  end.

Definition runAlerts (events : list AlertEvent) (prev : list Alert) : list Alert :=
  fold_left alertStep events prev.

(** Every timer that fires was set before: with [pending] timers set,
    no prefix of [events] holds more timeouts than [pending] and its
    own alerts. *)
Fixpoint timersFollow (pending : nat) (events : list AlertEvent) : bool :=
  match events with
  | [] => true
  | AddAlert _ :: rest => timersFollow (S pending) rest
  | AlertTimeout :: rest =>
      match pending with
      | O => false
      | S p => timersFollow p rest
      end
  end.

Fixpoint addedAlerts (events : list AlertEvent) : list Alert :=
  match events with
  | [] => []
  | AddAlert a :: rest => a :: addedAlerts rest
  | AlertTimeout :: rest => addedAlerts rest
  end.

Fixpoint timeouts (events : list AlertEvent) : nat :=
  match events with
  | [] => O
  | AddAlert _ :: rest => timeouts rest
  | AlertTimeout :: rest => S (timeouts rest)
  end.

(** ** Viewing a saved sheet: [handleViewFile]

    The rows are those [sheet_to_json] gives with [header: 1]; a cell
    that is missing reads as [undefined]. *)

(** [parseFloat(String(c)) || 0] *)
Definition viewValue (c : cell) : number :=
  let value := parseFloat (cell_toString c) in
  if truthy value then value else of_Z 0.

(** [h === 'Total Holdings'] *)
Definition isTotalHoldings (h : cell) : bool :=
  match h with
  | CStr s => String.eqb s TotalHoldings
  | _ => false
  end.

(** The inner loop over the columns [j, j+1, ...], [headers] being the
    header cells from column [j] on. *)
Fixpoint viewCells (row : list cell) (j : nat) (headers : list cell) (acc : PivotRow)
    : PivotRow :=
  match headers with
  | [] => acc
  | h :: rest =>
      let value := viewValue (at_index row j) in
      let acc1 := set (cell_toString h) value acc in
      let acc2 := if isTotalHoldings h then set TotalHoldings value acc1 else acc1 in
      viewCells row (S j) rest acc2
  end.

Definition viewRow (headers : list cell) (row : list cell) : PivotRow :=
  viewCells row 1 (drop 1 headers) [(TotalHoldings, of_Z 0)].

(** The outer loop over the rows after the first.  [None] is the
    exception the [catch] turns into an alert: [row[0]] on a row that is
    [undefined], [headers.length] on a first row that is. *)
Fixpoint viewRows (headers : option (list cell)) (rows : sheet) (pivot : PivotData)
    : option PivotData :=
  match rows with
  | [] => Some pivot
  | None :: _ => None
  | Some row :: rest =>
      match headers with
      | None => None
      | Some hs =>
          viewRows headers rest
            (set (cell_toString (at_index row 0)) (viewRow hs row) pivot)
      end
  end.

Definition viewFile (jsonData : sheet) : option PivotData :=
  match jsonData with
  | [] => Some []
  | headers :: rows => viewRows headers rows []
  end.

(** The number of digits of an integer. *)
Definition numDigits (z : Z) : nat := String.length (digits (Z.abs z)).

Definition savedSheet : sheet :=
  [ Some [CStr "Company Name"; CStr "Alice"; CStr "Bob"; CStr "Total Holdings"];
    Some [CStr "Infosys"; CNum (of_Z 10); CStr "n/a"; CNum (of_Z 10)];
    Some [CStr "TCS"; CNum (of_Z 3); CNum (of_Z 4)] ].


(** ** Export: the header and the rows [exportToCSV] builds

    These are the arrays before they are joined into lines; nothing is
    quoted by the join. *)

Definition exportHeaders (pivotData : PivotData) : list string :=
  "Company Name" :: getOwners pivotData ++ [TotalHoldings].

(** [[company, ...owners.map(owner => data[owner] || 0), data['Total Holdings']]] *)
Definition exportRow (owners : list string) (e : string * PivotRow) : list cell :=
  CStr e.1
  :: map (λ owner, CNum (or0 (get owner e.2))) owners
  ++ [match get TotalHoldings e.2 with Some v => CNum v | None => CEmpty end].

Definition exportRows (pivotData : PivotData) : list (list cell) :=
  map (exportRow (getOwners pivotData)) (entries pivotData).


(** ** The Supabase client

    The module keeps one client, made on the first call that finds the
    two environment variables. *)

Section Supabase.
(** The library's client, and its [createClient(url, key, options)] with
    the options the module passes. *)
Variable SupabaseClient : Type.
Variable createClient : string → string → SupabaseClient.

(** [import.meta.env]: a variable that is not defined is [None]. *)
Record Env := MkEnv {
  supabaseUrl : option string;
  supabaseAnonKey : option string
}.

(** The module's variable [supabaseClient], and the number of clients
    the library has been asked for. *)
Record ClientModule := MkModule {
  supabaseClient : option SupabaseClient;
  created : nat
}.

Definition env_truthy (v : option string) : bool :=
  match v with
  | Some s => negb (is_empty s)
  | None => false
  end.

Definition isSupabaseConfigured (env : Env) : bool :=
  env_truthy (supabaseUrl env) && env_truthy (supabaseAnonKey env).

Definition missingVariables : string :=
  "Missing Supabase environment variables. Please create a .env file with VITE_SUPABASE_URL and VITE_SUPABASE_ANON_KEY".

(** The client returned, or the message of the error thrown. *)
Definition getSupabaseClient (env : Env) (st : ClientModule)
    : ClientModule * (SupabaseClient + string) :=
  match supabaseClient st with
  | Some c => (st, inl c)
  | None =>
      if negb (env_truthy (supabaseUrl env)) || negb (env_truthy (supabaseAnonKey env))
      then (st, inr missingVariables)
      else
        let c := createClient (default "" (supabaseUrl env))
                   (default "" (supabaseAnonKey env)) in
        (MkModule (Some c) (S (created st)), inl c)
  end.

(** [n] calls in a row: the module after them and what each returned. *)
Fixpoint getSupabaseClients (env : Env) (n : nat) (st : ClientModule)
    : ClientModule * list (SupabaseClient + string) :=
  match n with
  | O => (st, [])
  | S n' =>
      let '(st1, r) := getSupabaseClient env st in
      let '(st2, rs) := getSupabaseClients env n' st1 in
      (st2, r :: rs)
  end.
End Supabase.

(** ** Where the embedding is what the program computes

    The statements on the pivot fold and on the sorted view are made
    where the embedding and the program agree.

    - Numbers.  [add] is exact, the program's [+] rounds to binary64.
      The two agree on integers as long as every sum stays at most 2^53
      in magnitude, which is the case when the quantities are integers
      whose magnitudes add up to 2^53 at most.
    - Keys.  [get] reads an object's own properties; the program's
      [o[k]] finds, on an object that has no key [k] of its own, what
      [Object.prototype] holds under [k].  The two agree on the keys
      [Object.prototype] does not have. *)

(** The property names of [Object.prototype]. *)
Definition inheritedKey (k : string) : bool :=
  existsb (String.eqb k)
    ["constructor"; "__defineGetter__"; "__defineSetter__"; "hasOwnProperty";
     "__lookupGetter__"; "__lookupSetter__"; "isPrototypeOf"; "propertyIsEnumerable";
     "toString"; "valueOf"; "__proto__"; "toLocaleString"].

(** A record whose company and owner are keys of their own. *)
Definition plainRecord (h : HoldingData) : Prop :=
  inheritedKey (companyName h) = false ∧ inheritedKey (ownerName h) = false.

(** The integer a number is, if it is one written without a fraction. *)
Definition integerValue (x : number) : option Z :=
  match x with
  | Fin (Dec z O) => Some z
  | _ => None
  end.

Definition magnitude (h : HoldingData) : Z :=
  match total h with
  | Fin d => Z.abs (mant d)
  | _ => 0
  end.

Definition sumMagnitudes (records : list HoldingData) : Z :=
  foldr (λ h acc, magnitude h + acc) 0 records.

(** A record with an integer quantity, a plain company and a plain
    owner that is not the reserved key. *)
Definition safeRecord (h : HoldingData) : Prop :=
  is_Some (integerValue (total h)) ∧ ownerName h ≠ TotalHoldings ∧ plainRecord h.

(** Records whose sums, in any order, are exact in binary64. *)
Definition safeRecords (records : list HoldingData) : Prop :=
  Forall safeRecord records ∧ sumMagnitudes records ≤ 2 ^ 53.

(** Every value of the row, of the table, is an integer of magnitude
    [bound] at most. *)
Definition integerRow (bound : Z) (row : PivotRow) : Prop :=
  Forall (λ e : string * number, ∃ z, e.2 = of_Z z ∧ Z.abs z ≤ bound) row.

Definition integerTable (bound : Z) (t : PivotData) : Prop :=
  ∀ company row, get company t = Some row → integerRow bound row.

(** Two tables hold the same cells. *)
Definition same_cells (t t' : PivotData) : Prop :=
  ∀ company key, pivotCell t company key = pivotCell t' company key.

(** ** The order of the sorted view *)

(** The value a row is sorted by under a numeric column. *)
Definition sortValue (sortColumn : string) (e : string * PivotRow) : number :=
  if String.eqb sortColumn TotalHoldings
  then toNumber (get TotalHoldings e.2)
  else or0 (get sortColumn e.2).

(** [x] may come before [y] in the direction. *)
Definition precedes (direction : SortDirection) (x y : number) : Prop :=
  match direction with
  | asc => sign (sub x y) ≠ Gt
  | desc => sign (sub y x) ≠ Gt
  end.

(** The comparison of [x] and [y] is a tie. *)
Definition tied (x y : number) : bool :=
  match sign (sub x y) with
  | Eq => true
  | _ => false
  end.

(** Every element may come before every element behind it. *)
Fixpoint sortedBy {A} (R : A → A → Prop) (l : list A) : Prop :=
  match l with
  | [] => True
  | a :: l' => Forall (R a) l' ∧ sortedBy R l'
  end.

(** A table whose rows are not in the order of their totals. *)
Definition unsortedTable : PivotData :=
  buildPivot [Holding "C" (of_Z 10) "Bob"; Holding "B" (of_Z 30) "Alice";
              Holding "A" (of_Z 50) "Alice"; Holding "B" (of_Z 20) "Bob";
              Holding "D" (of_Z 70) "Bob"].

(** * Properties *)

Local Arguments String.append : simpl nomatch.

(** ** Regular expressions *)

Section MatcherFacts.
Context {A : Type} (total : nat).
Implicit Types (k : string → option string → option A) (g : option string).

Lemma orElse_Some (x y : option A) v :
  orElse x y = Some v → x = Some v ∨ y = Some v.
Proof. destruct x; cbn; auto. Qed.

(** A matcher without a group hands the capture on as it got it. *)
Lemma rmatch_groupless r :
  groupless r = true →
  ∀ s g k v, rmatch total r s g k = Some v → ∃ s', k s' g = Some v.
Proof.
  induction r as [|p|r1 IH1 r2 IH2|r1 IH1 r2 IH2|r1 IH1|r1 IH1|r1 IH1| |];
    cbn [groupless rmatch]; intros Hg s g k v H.
  - eauto.
  - destruct s as [|c s]; [discriminate|]. destruct (p c); [eauto|discriminate].
  - apply andb_prop in Hg as [Hg1 Hg2].
    apply (IH1 Hg1) in H as [s1 H]. apply (IH2 Hg2) in H. exact H.
  - apply andb_prop in Hg as [Hg1 Hg2].
    apply orElse_Some in H as [H|H]; [apply (IH1 Hg1) in H|apply (IH2 Hg2) in H]; exact H.
  - remember (String.length s) as n eqn:Hn. clear Hn. revert s H.
    induction n as [|n IHn]; intros s H; cbn [star_loop] in H; [eauto|].
    apply orElse_Some in H as [H|H]; [|eauto].
    apply (IH1 Hg) in H as [s' H].
    destruct (String.length s' <? String.length s)%nat; [eauto|discriminate].
  - apply (IH1 Hg) in H as [s1 H]. clear s.
    remember (String.length s1) as n eqn:Hn. clear Hn. revert s1 H.
    induction n as [|n IHn]; intros s H; cbn [lazy_loop] in H;
      apply orElse_Some in H as [H|H]; eauto; try discriminate.
    apply (IH1 Hg) in H as [s' H].
    destruct (String.length s' <? String.length s)%nat; [eauto|discriminate].
  - discriminate.
  - destruct (String.length s =? total)%nat; [eauto|discriminate].
  - destruct s; [eauto|discriminate].
Qed.

(** The lazy loop over a class reaches its continuation behind a run of
    characters of the class. *)
Lemma lazy_loop_char p k n s g v :
  lazy_loop (rmatch total (RChar p)) k n s g = Some v →
  ∃ pre s1, s = pre +:+ s1 ∧ all_chars p pre = true ∧ k s1 g = Some v.
Proof.
  assert (Hnow : k s g = Some v →
                 ∃ pre s1, s = pre +:+ s1 ∧ all_chars p pre = true ∧ k s1 g = Some v).
  { intros H. exists EmptyString, s. repeat split. exact H. }
  revert s Hnow. induction n as [|n IH]; intros s Hnow H; cbn [lazy_loop rmatch] in H;
    apply orElse_Some in H as [H|H]; auto; try discriminate.
  destruct s as [|c s]; [discriminate|]. destruct (p c) eqn:Hc; [|discriminate].
  destruct (String.length s <? String.length (String c s))%nat; [|discriminate].
  apply IH in H as (pre & s1 & -> & Hpre & H).
  - exists (String c pre), s1. cbn. rewrite Hc, Hpre. auto.
  - intros H'. exists EmptyString, s. repeat split. exact H'.
Qed.

Lemma length_append_ge (a b : string) :
  (String.length b ≤ String.length (a +:+ b))%nat.
Proof.
  induction a as [|c a IH]; cbn [String.append String.length]; lia.
Qed.

Lemma str_take_app (a b : string) :
  str_take (String.length (a +:+ b) - String.length b) (a +:+ b) = a.
Proof.
  induction a as [|c a IH]; cbn [String.append String.length].
  - rewrite Nat.sub_diag. destruct b; reflexivity.
  - pose proof (length_append_ge a b) as Hlen.
    replace (S (String.length (a +:+ b)) - String.length b)%nat
      with (S (String.length (a +:+ b) - String.length b)) by lia.
    cbn [str_take]. rewrite IH. reflexivity.
Qed.

(** The capture of [([class]+?)] holds characters of the class only. *)
Lemma rmatch_group_lazy_char p s g k v :
  rmatch total (RGroup (RPlusLazy (RChar p))) s g k = Some v →
  ∃ s1 name, all_chars p name = true ∧ k s1 (Some name) = Some v.
Proof.
  cbn [rmatch]. destruct s as [|c s]; [discriminate|].
  destruct (p c) eqn:Hc; [|discriminate]. intros H.
  apply lazy_loop_char in H as (pre & s1 & -> & Hpre & H).
  exists s1, (String c pre). split; [cbn; rewrite Hc, Hpre; reflexivity|].
  rewrite <- H. do 2 f_equal. symmetry. apply (str_take_app (String c pre) s1).
Qed.

End MatcherFacts.

Lemma search_from_found total r pre s f :
  search_from total r pre s = Some f →
  ∃ pre' s0, rmatch total r s0 None (λ s' g, Some (Found pre' s' g)) = Some f.
Proof.
  revert pre. induction s as [|c s IH]; intros pre; cbn [search_from];
    destruct (rmatch total r _ None _) as [f'|] eqn:Hm.
  - intros [= <-]. eauto.
  - discriminate.
  - intros [= <-]. eauto.
  - apply IH.
Qed.

(** ** Strings *)

Lemma all_chars_trimStart p s : all_chars p s = true → all_chars p (trimStart s) = true.
Proof.
  induction s as [|c s IH]; cbn; [auto|]. intros H.
  destruct (is_space c); [apply IH; apply andb_prop in H as [_ H]; exact H|exact H].
Qed.

Lemma all_chars_trimEnd p s : all_chars p s = true → all_chars p (trimEnd s) = true.
Proof.
  induction s as [|c s IH]; cbn [trimEnd]; [auto|]. intros H.
  destruct (all_space (String c s)); [reflexivity|].
  cbn in *. apply andb_prop in H as [-> H]. apply IH, H.
Qed.

Lemma all_chars_trim p s : all_chars p s = true → all_chars p (trim s) = true.
Proof. intros H. apply all_chars_trimEnd, all_chars_trimStart, H. Qed.

Lemma replaceAllChar_absent c r s :
  all_chars (λ a, negb (char_eqb a c)) s = true → replaceAllChar c r s = s.
Proof.
  induction s as [|a s IH]; cbn; [reflexivity|]. intros H.
  apply andb_prop in H as [Ha H]. apply negb_true_iff in Ha. rewrite Ha, (IH H).
  reflexivity.
Qed.

Lemma all_chars_impl (p q : ascii → bool) s :
  (∀ c, p c = true → q c = true) → all_chars p s = true → all_chars q s = true.
Proof.
  intros Hpq. induction s as [|c s IH]; cbn; [auto|]. intros H.
  apply andb_prop in H as [Hc H]. rewrite (Hpq c Hc), (IH H). reflexivity.
Qed.

(** ** Owner extraction *)

(** Without the CLIENT pattern the extension is stripped. *)
Lemma extractOwner_fallback :
  extractOwnerFromFilename "report.csv" = "report".
Proof. vm_compute. reflexivity. Qed.

(** A name written with spaces is found between the two markers. *)
Lemma extractOwner_spaced_name :
  extractOwnerFromFilename "CLIENT John Doe CLIENT-ID 123.xlsx" = "John Doe".
Proof. vm_compute. reflexivity. Qed.

(** Whatever the file name, the name the pattern captures holds no
    hyphen, bar or underscore. *)
Lemma client_capture_clean filename f name :
  exec re_client filename = Some f → group1 f = Some name →
  all_chars not_separator name = true.
Proof.
  unfold exec, re_client. intros H Hname.
  apply search_from_found in H as (pre & s0 & H). cbn [rmatch] in H.
  change (rmatch (String.length filename) (lit_ci "CLIENT") s0 None
            (λ s1 g1, rmatch (String.length filename) (RStar (RChar is_space)) s1 g1
               (λ s2 g2, rmatch (String.length filename)
                           (RGroup (RPlusLazy (RChar not_separator))) s2 g2
                  (λ s3 g3, rmatch (String.length filename)
                              (RSeq (RStar (RChar is_space)) (lit_ci "CLIENT-ID")) s3 g3
                              (λ s' g, Some (Found pre s' g))))) = Some f) in H.
  apply rmatch_groupless in H as [s1 H]; [|reflexivity].
  apply rmatch_groupless in H as [s2 H]; [|reflexivity].
  apply rmatch_group_lazy_char in H as (s3 & name' & Hclean & H).
  apply rmatch_groupless in H as [s4 H]; [|reflexivity].
  injection H as <-. cbn in Hname. congruence.
Qed.

(** C1: the class [[^-|_]] of the pattern refuses the underscore of
    "John_Doe", so no match exists there and the file name comes back
    without its extension, not "John Doe"; "report.csv" gives "report".
    For every file name, the two replacements that follow a match find
    no underscore and no hyphen to replace. *)
Theorem extractOwner_underscore_name :
  extractOwnerFromFilename "CLIENT John_Doe CLIENT-ID 123.xlsx"
    = "CLIENT John_Doe CLIENT-ID 123"
  ∧ extractOwnerFromFilename "CLIENT John_Doe CLIENT-ID 123.xlsx" ≠ "John Doe"
  ∧ extractOwnerFromFilename "report.csv" = "report"
  ∧ (∀ filename f name,
       exec re_client filename = Some f → group1 f = Some name →
       replaceAllChar "-" " " (replaceAllChar "_" " " (trim name)) = trim name).
Proof.
  split; [vm_compute; reflexivity|]. split; [vm_compute; discriminate|].
  split; [vm_compute; reflexivity|].
  intros filename f name Hf Hname.
  pose proof (all_chars_trim _ _ (client_capture_clean _ _ _ Hf Hname)) as Hclean.
  rewrite (replaceAllChar_absent "_"), (replaceAllChar_absent "-"); [reflexivity| |];
    (eapply all_chars_impl; [|exact Hclean]); intros c; unfold not_separator;
    intros Hc; apply negb_true_iff in Hc; apply orb_false_elim in Hc as [Hc Hu];
    apply orb_false_elim in Hc as [Hh Hb]; apply negb_true_iff; assumption.
Qed.

Lemma extractOwner_underscore_name_witness :
  exec re_client "CLIENT John Doe CLIENT-ID 123.xlsx"
  = Some (Found "" " 123.xlsx" (Some "John Doe"))
  ∧ replaceAllChar "-" " " (replaceAllChar "_" " " (trim "John Doe")) = trim "John Doe".
Proof.
  split; [reflexivity|].
  exact (proj2 (proj2 (proj2 extractOwner_underscore_name))
           "CLIENT John Doe CLIENT-ID 123.xlsx"
           (Found "" " 123.xlsx" (Some "John Doe")) "John Doe" eq_refl eq_refl).
Defined.

(** ** Record extraction *)

Lemma elem_of_slice_from {A} (start : Z) (l : list A) (x : A) :
  x ∈ slice_from start l → ∃ i : nat, start ≤ Z.of_nat i ∧ l !! i = Some x.
Proof.
  unfold slice_from. intros Hx.
  destruct (Z.ltb_spec start 0);
    apply list_elem_of_lookup in Hx as [j Hj]; rewrite lookup_drop in Hj;
    eexists; (split; [|exact Hj]); lia.
Qed.

Lemma extractRow_Some m owner row h :
  extractRow m owner row = Some h →
  ∃ cells, row = Some cells
    ∧ (Nat.max (companyColIndex m) (totalColIndex m) + 1 ≤ length cells)%nat
    ∧ h = Holding (rowCompanyName m cells) (rowQuantity m cells) owner
    ∧ isSummaryName (toLowerCase (rowCompanyName m cells)) = false
    ∧ (1 < String.length (rowCompanyName m cells))%nat
    ∧ nonzero (rowQuantity m cells) = true.
Proof.
  unfold extractRow. destruct row as [cells|]; [|discriminate].
  destruct (Nat.leb_spec (length cells) (Nat.max (companyColIndex m) (totalColIndex m)));
    [discriminate|].
  destruct (isSummaryName _) eqn:Hs; [discriminate|].
  destruct (negb _ && _ && _) eqn:Hc; [|discriminate].
  intros [= <-]. exists cells.
  apply andb_prop in Hc as [Hc Hq]. apply andb_prop in Hc as [_ Hl].
  apply Nat.ltb_lt in Hl. repeat split; auto; lia.
Qed.

Lemma elem_of_extractRecords m owner rawData h :
  h ∈ extractRecords m owner rawData →
  ∃ (i : nat) row, dataStartRow m ≤ Z.of_nat i
    ∧ rawData !! i = Some row ∧ extractRow m owner row = Some h.
Proof.
  unfold extractRecords. intros Hh.
  apply list_elem_of_omap in Hh as (row & Hrow & Hh).
  apply elem_of_slice_from in Hrow as (i & Hi & Hl). eauto.
Qed.

Example sampleSheet_detect : detectFormat sampleSheet = Mapping 3 1 3.
Proof. vm_compute. reflexivity. Qed.

Example sampleSheet_records :
  extractRecords (Mapping 3 1 3) "Alice" sampleSheet
  = [Holding "Infosys" (of_Z 1200) "Alice"; Holding "TCS" (of_Z (-5)) "Alice"].
Proof. vm_compute. reflexivity. Qed.

(** C8: a record comes from a row at or after the start row that is
    long enough for both columns, with a trimmed name of more than one
    character and a quantity other than 0; a row with a shorter name or
    a zero quantity gives no record, and decoding apart no alert of type
    [error] is raised for the file. *)
Theorem extractRecords_only_if m owner rawData :
  (∀ h, h ∈ extractRecords m owner rawData →
     ∃ (i : nat) cells,
       dataStartRow m ≤ Z.of_nat i
       ∧ rawData !! i = Some (Some cells)
       ∧ (Nat.max (companyColIndex m) (totalColIndex m) + 1 ≤ length cells)%nat
       ∧ companyName h = rowCompanyName m cells
       ∧ (1 < String.length (companyName h))%nat
       ∧ total h = rowQuantity m cells
       ∧ nonzero (total h) = true
       ∧ ownerName h = owner)
  ∧ (∀ cells,
       (String.length (rowCompanyName m cells) ≤ 1)%nat
       ∨ nonzero (rowQuantity m cells) = false →
       extractRow m owner (Some cells) = None)
  ∧ (∀ fname a, a ∈ snd (processFile (MkFile fname (inl rawData))) → type a ≠ error).
Proof.
  split; [|split].
  - intros h Hh.
    apply elem_of_extractRecords in Hh as (i & row & Hi & Hrow & Hh).
    apply extractRow_Some in Hh as (cells & -> & Hlen & -> & _ & Hname & Hq).
    exists i, cells. cbn. repeat split; auto.
  - intros cells Hdrop.
    destruct (extractRow m owner (Some cells)) as [h|] eqn:Hh; [|reflexivity].
    apply extractRow_Some in Hh as (cells' & [= <-] & _ & _ & _ & Hname & Hq).
    destruct Hdrop as [Hdrop|Hdrop]; [lia|congruence].
  - intros fname a. unfold processFile. cbn.
    destruct (length _ =? 0)%nat; cbn; intros Ha.
    + apply list_elem_of_singleton in Ha as ->. discriminate.
    + inversion Ha.
Qed.

Lemma extractRecords_only_if_witness :
  Holding "Infosys" (of_Z 1200) "Alice" ∈ extractRecords (Mapping 3 1 3) "Alice" sampleSheet
  ∧ ∃ (i : nat) cells,
      3 ≤ Z.of_nat i
      ∧ sampleSheet !! i = Some (Some cells)
      ∧ (Nat.max 1 3 + 1 ≤ length cells)%nat
      ∧ "Infosys" = rowCompanyName (Mapping 3 1 3) cells
      ∧ (1 < String.length "Infosys")%nat
      ∧ of_Z 1200 = rowQuantity (Mapping 3 1 3) cells
      ∧ nonzero (of_Z 1200) = true
      ∧ "Alice" = "Alice".
Proof.
  assert (Hin : Holding "Infosys" (of_Z 1200) "Alice"
                ∈ extractRecords (Mapping 3 1 3) "Alice" sampleSheet).
  { rewrite sampleSheet_records. apply elem_of_cons. left. reflexivity. }
  split; [exact Hin|].
  exact (proj1 (extractRecords_only_if (Mapping 3 1 3) "Alice" sampleSheet) _ Hin).
Defined.

(** C5: a row whose lower-cased company name contains "total", "grand"
    or "summary" gives no record, whatever the mapping; hence no record
    of any sheet bears such a name. *)
Theorem summary_rows_never_emitted m owner rawData :
  (∀ cells,
     isSummaryName (toLowerCase (rowCompanyName m cells)) = true →
     extractRow m owner (Some cells) = None)
  ∧ (∀ h, h ∈ extractRecords m owner rawData →
       isSummaryName (toLowerCase (companyName h)) = false).
Proof.
  split.
  - intros cells Hs.
    destruct (extractRow m owner (Some cells)) as [h|] eqn:Hh; [|reflexivity].
    apply extractRow_Some in Hh as (cells' & [= <-] & _ & _ & Hs' & _). congruence.
  - intros h Hh.
    apply elem_of_extractRecords in Hh as (i & row & _ & _ & Hh).
    apply extractRow_Some in Hh as (cells & _ & _ & -> & Hs & _). exact Hs.
Qed.

Lemma summary_rows_never_emitted_witness :
  isSummaryName (toLowerCase (rowCompanyName (Mapping 0 0 1) [CStr "Grand Total"; CNum (of_Z 100)])) = true
  ∧ extractRow (Mapping 0 0 1) "Alice" (Some [CStr "Grand Total"; CNum (of_Z 100)]) = None.
Proof.
  split; [reflexivity|].
  apply (proj1 (summary_rows_never_emitted (Mapping 0 0 1) "Alice" [])).
  reflexivity.
Defined.

(** C2 as stated fails: nothing clamps a quantity.  A negative number
    and the text "Infinity" both reach the records as they are. *)
Lemma negative_quantity_emitted :
  fst (processFile negativeFile)
  = [Holding "TCS" (of_Z (-5)) "Alice"; Holding "Wipro" (Inf false) "Alice"]
  ∧ ¬ (∀ m owner rawData h,
         h ∈ extractRecords m owner rawData →
         is_negative (total h) = false ∧ is_finite (total h) = true).
Proof.
  split; [vm_compute; reflexivity|].
  intros H.
  destruct (H (Mapping 1 1 2) "Alice"
              (holdingsSheet [("TCS", CNum (of_Z (-5))); ("Wipro", CStr "Infinity")])
              (Holding "TCS" (of_Z (-5)) "Alice")) as [Hneg _].
  - vm_compute. apply elem_of_cons. left. reflexivity.
  - discriminate Hneg.
Qed.

(** C2 as amended: what does not parse counts as 0 and a cell that is
    not a number never gives [NaN]; what parses to a number other than
    0 is taken as parsed and a number cell is taken as it is, negative
    and infinite values included; no record carries a quantity equal
    to 0. *)
Theorem unparsable_quantity_is_zero m owner rawData :
  (∀ c, is_number c = false →
        parseFloat (replaceAllChar "," "" (String_or c "0")) = NaN →
        parseTotal c = of_Z 0)
  ∧ (∀ c, is_number c = false → parseTotal c ≠ NaN)
  ∧ (∀ c, is_number c = false →
          truthy (parseFloat (replaceAllChar "," "" (String_or c "0"))) = true →
          parseTotal c = parseFloat (replaceAllChar "," "" (String_or c "0")))
  ∧ (∀ n, parseTotal (CNum n) = n)
  ∧ (∀ h, h ∈ extractRecords m owner rawData → nonzero (total h) = true).
Proof.
  repeat split.
  - intros c Hc Hp. destruct c; try discriminate; cbn in *; rewrite Hp; reflexivity.
  - intros c Hc.
    assert (Hgen : ∀ p, (if truthy p then p else of_Z 0) ≠ NaN).
    { intros [| |d]; cbn; try discriminate. destruct (negb _); discriminate. }
    destruct c; try discriminate; cbn; apply Hgen.
  - intros c Hc Hp. destruct c; try discriminate; cbn in *; rewrite Hp; reflexivity.
  - intros h Hh.
    apply elem_of_extractRecords in Hh as (i & row & _ & _ & Hh).
    apply extractRow_Some in Hh as (cells & _ & _ & -> & _ & _ & Hq). exact Hq.
Qed.

Lemma unparsable_quantity_is_zero_witness :
  is_number (CStr "n/a") = false
  ∧ parseFloat (replaceAllChar "," "" (String_or (CStr "n/a") "0")) = NaN
  ∧ parseTotal (CStr "n/a") = of_Z 0.
Proof.
  split; [reflexivity|]. split; [reflexivity|].
  apply (proj1 (unparsable_quantity_is_zero (Mapping 3 1 3) "Alice" sampleSheet));
    reflexivity.
Defined.

(** ** Sorted view *)

Example sampleTable_value :
  sampleTable
  = [("A", [(TotalHoldings, of_Z 50); ("Alice", of_Z 50)]);
     ("B", [(TotalHoldings, of_Z 50); ("Alice", of_Z 30); ("Bob", of_Z 20)]);
     ("C", [(TotalHoldings, of_Z 10); ("Bob", of_Z 10)])].
Proof. vm_compute. reflexivity. Qed.


(** ** Format detection *)

Lemma scanCells_noHeader i j cells st :
  noHeader cells → scanCells i j cells st = st.
Proof.
  revert j. induction cells as [|c cells IH]; intros j Hno; [reflexivity|].
  cbn [scanCells]. destruct (Hno c) as [-> ->]; [apply elem_of_cons; by left|].
  apply IH. intros c' Hc'. apply Hno, elem_of_cons. by right.
Qed.

Lemma scanRows_ignored i row rows st :
  ignoredRow row → scanRows i (row :: rows) st = scanRows (S i) rows st.
Proof.
  destruct row as [cells|]; cbn [scanRows ignoredRow]; [|reflexivity].
  intros Hlen. apply Nat.ltb_lt in Hlen. rewrite Hlen. reflexivity.
Qed.

Lemma scanRows_no_signal i rows st :
  (∀ cells, Some cells ∈ rows → (3 ≤ length cells)%nat →
     hasISIN cells = false ∧ hasNumericData cells = false ∧ noHeader cells) →
  scanRows i rows st = st.
Proof.
  revert i. induction rows as [|row rows IH]; intros i Hno; [reflexivity|].
  assert (Hrest : scanRows (S i) rows st = st).
  { apply IH. intros cells Hc. apply Hno, elem_of_cons. by right. }
  destruct row as [cells|]; cbn [scanRows]; [|exact Hrest].
  destruct (Nat.ltb_spec (length cells) 3); [exact Hrest|].
  destruct (Hno cells) as (-> & -> & Hh); [apply elem_of_cons; by left|assumption|].
  cbn [orb]. rewrite scanCells_noHeader by exact Hh. exact Hrest.
Qed.

(** C6: a sheet of fewer than 15 rows gets the default mapping (start
    row 5, company column 1, total column 9) when none of the rows the
    scan looks at, those of 3 cells or more, starts like a code or holds
    numbers at columns 2 and 9, and none of their cells reads as a
    header.  The detector is a total function: it always answers. *)
Theorem detectFormat_default rawData :
  (length rawData < 15)%nat →
  (∀ cells, Some cells ∈ rawData → (3 ≤ length cells)%nat →
     hasISIN cells = false ∧ hasNumericData cells = false ∧ noHeader cells) →
  detectFormat rawData = Mapping 5 1 9.
Proof.
  intros Hlen Hno. unfold detectFormat.
  rewrite scanRows_no_signal; [reflexivity|].
  intros cells Hc. apply Hno. eapply subseteq_take, Hc.
Qed.

Lemma detectFormat_default_witness :
  detectFormat [Some [CStr "Statement"]; None;
                Some [CNum (of_Z 1); CStr "Infosys"; CNum (of_Z 100)]]
  = Mapping 5 1 9.
Proof.
  apply detectFormat_default; [cbn; lia|].
  intros cells Hc Hlen.
  assert (Hcase : cells = [CNum (of_Z 1); CStr "Infosys"; CNum (of_Z 100)]).
  { apply elem_of_cons in Hc as [Hc|Hc];
      [injection Hc as ->; cbn in Hlen; lia|].
    apply elem_of_cons in Hc as [Hc|Hc]; [discriminate|].
    apply elem_of_cons in Hc as [Hc|Hc]; [congruence|inversion Hc]. }
  subst cells. split; [reflexivity|split; [reflexivity|]]. intros c Hin.
  repeat (apply elem_of_cons in Hin as [->|Hin]; [split; reflexivity|]).
  inversion Hin.
Defined.

Lemma scanRows_ignored_rows i rows rows' st :
  Forall2 (λ r r', r = r' ∨ (ignoredRow r ∧ ignoredRow r')) rows rows' →
  scanRows i rows st = scanRows i rows' st.
Proof.
  intros H. revert i st. induction H as [|r r' rows rows' Hr _ IH]; intros i st;
    [reflexivity|].
  destruct Hr as [<-|[Hr Hr']].
  - destruct r as [cells|]; cbn [scanRows]; [|apply IH].
    destruct (length cells <? 3)%nat; [apply IH|].
    destruct (hasISIN cells || hasNumericData cells); [reflexivity|apply IH].
  - rewrite !scanRows_ignored by assumption. apply IH.
Qed.

(** C10: a row that is missing or has fewer than 3 cells has no part in
    the detection.  The scan goes past it with the three variables as
    they were; so two sheets that differ only in such rows get the same
    mapping, whatever those rows contain, a header keyword included. *)
Theorem short_rows_ignored :
  (∀ i row rows st,
     ignoredRow row → scanRows i (row :: rows) st = scanRows (S i) rows st)
  ∧ (∀ rawData rawData',
       Forall2 (λ r r', r = r' ∨ (ignoredRow r ∧ ignoredRow r')) rawData rawData' →
       detectFormat rawData = detectFormat rawData').
Proof.
  split; [exact scanRows_ignored|].
  intros rawData rawData' H. unfold detectFormat.
  rewrite (Forall2_length _ _ _ H).
  rewrite (scanRows_ignored_rows 0 _ (take (Nat.min 15 (length rawData')) rawData'));
    [reflexivity|].
  apply Forall2_take, H.
Qed.

Lemma short_rows_ignored_witness :
  detectFormat [Some [CStr "Company"; CStr "Quantity"];
                Some [CNum (of_Z 1); CStr "Infosys"; CNum (of_Z 100)]]
  = detectFormat [None; Some [CNum (of_Z 1); CStr "Infosys"; CNum (of_Z 100)]]
  ∧ detectFormat [Some [CStr "Company"; CStr "Quantity"];
                  Some [CNum (of_Z 1); CStr "Infosys"; CNum (of_Z 100)]]
    = Mapping 5 1 9.
Proof.
  split; [|reflexivity].
  apply (proj2 short_rows_ignored).
  constructor; [right; cbn; split; [lia|exact I]|].
  constructor; [left; reflexivity|constructor].
Defined.

Lemma rmatch_star_char {A} total p c s g (k : string → option string → option A) :
  rmatch total (RStar (RChar p)) (String c s) g k
  = orElse (if p c then rmatch total (RStar (RChar p)) s g k else None)
      (k (String c s) g).
Proof.
  cbn [rmatch String.length star_loop]. destruct (p c); [|reflexivity].
  rewrite (proj2 (Nat.ltb_lt _ _)) by lia. reflexivity.
Qed.

Lemma rmatch_star_to_end {A} total p s g (k : string → option string → option A) :
  all_chars p s = true →
  rmatch total (RStar (RChar p)) s g (λ s1 g1, rmatch total REnd s1 g1 k)
  = k EmptyString g.
Proof.
  induction s as [|c s IH]; intros Hall; [reflexivity|].
  cbn [all_chars] in Hall. apply andb_prop in Hall as [Hc Hs].
  rewrite rmatch_star_char, Hc, (IH Hs). cbn [rmatch].
  destruct (k EmptyString g); reflexivity.
Qed.

Lemma rmatch_code_prefix {A} r a b c rest g (k : string → option string → option A) :
  is_alpha a = true → is_alpha b = true → is_alpha c || is_digit c = true →
  rmatch (String.length (String a (String b (String c rest))))
    (RSeq RBegin (RSeq (RSeq alpha_ci alpha_ci) (RSeq (RSeq alnum_ci r) REnd)))
    (String a (String b (String c rest))) g k
  = rmatch (String.length (String a (String b (String c rest)))) r rest g
      (λ s1 g1, rmatch (String.length (String a (String b (String c rest)))) REnd s1 g1 k).
Proof.
  intros Ha Hb Hc. unfold alpha_ci, alnum_ci. cbn [rmatch].
  rewrite Nat.eqb_refl, Ha, Hb, Hc. reflexivity.
Qed.

Lemma test_re_code s :
  (3 ≤ String.length s)%nat →
  all_chars (λ c, is_alpha c || is_digit c) s = true →
  all_chars is_alpha (str_take 2 s) = true →
  test re_code s = true.
Proof.
  destruct s as [|a [|b [|c rest]]]; cbn [String.length]; try lia.
  intros _ Hall H2. cbn in H2. cbn [all_chars] in Hall.
  apply andb_prop in H2 as [Ha H2]. apply andb_prop in H2 as [Hb _].
  apply andb_prop in Hall as [_ Hall]. apply andb_prop in Hall as [_ Hall].
  apply andb_prop in Hall as [Hc Hall].
  unfold test, exec, re_code. cbn [search_from].
  rewrite rmatch_code_prefix by assumption.
  unfold alnum_ci. rewrite rmatch_star_to_end by assumption. reflexivity.
Qed.

Lemma scanRows_skip pre rest i st :
  Forall ignoredRow pre →
  scanRows i (pre ++ rest) st = scanRows (i + length pre) rest st.
Proof.
  intros H. revert i. induction H as [|r pre Hr _ IH]; intros i; cbn [app length].
  - f_equal. lia.
  - rewrite scanRows_ignored by exact Hr. rewrite IH. f_equal. lia.
Qed.

Lemma take_split_at {A} (l : list A) (i n : nat) x :
  l !! i = Some x → (i < n)%nat →
  take n l = take i l ++ x :: take (n - S i) (drop (S i) l).
Proof.
  intros Hx Hn. pose proof (lookup_lt_Some _ _ _ Hx) as Hlt.
  assert (Hlen : length (take i l) = i) by (rewrite length_take; lia).
  transitivity (take n (take i l ++ x :: drop (S i) l)).
  - f_equal. symmetry. apply take_drop_middle, Hx.
  - rewrite take_app_ge by lia. rewrite Hlen.
    replace (n - i)%nat with (S (n - S i)) by lia. reflexivity.
Qed.

(** C9: when the first row of the scan window with at least 3 cells
    starts with a cell that reads as letters and digits only, at least
    3 of them, the first two being letters, the generic code pattern
    matches it: the scan stops there with that row as the start row, and
    the columns stay at their defaults whatever headers that row or a
    later one holds. *)
Theorem generic_code_row_starts_data rawData (i : nat) cells :
  (i < 15)%nat →
  rawData !! i = Some (Some cells) →
  (3 ≤ length cells)%nat →
  (∀ (j : nat) r, (j < i)%nat → rawData !! j = Some r → ignoredRow r) →
  (3 ≤ String.length (trim (String_or (at_index cells 0) "")))%nat →
  all_chars (λ c, is_alpha c || is_digit c) (trim (String_or (at_index cells 0) "")) = true →
  all_chars is_alpha (str_take 2 (trim (String_or (at_index cells 0) ""))) = true →
  test re_code (trim (String_or (at_index cells 0) "")) = true
  ∧ hasISIN cells = true
  ∧ detectFormat rawData = Mapping (Z.of_nat i) 1 9.
Proof.
  intros Hi Hrow Hlen Hpre H3 Hall H2.
  assert (Hcode : test re_code (trim (String_or (at_index cells 0) "")) = true)
    by (apply test_re_code; assumption).
  assert (Hisin : hasISIN cells = true)
    by (unfold hasISIN; rewrite Hcode; apply orb_true_r).
  split; [exact Hcode|]. split; [exact Hisin|].
  unfold detectFormat.
  pose proof (lookup_lt_Some _ _ _ Hrow) as Hlt.
  rewrite (take_split_at rawData i _ _ Hrow) by lia.
  rewrite scanRows_skip.
  - cbn [scanRows]. rewrite (proj2 (Nat.ltb_ge _ _)) by lia.
    rewrite Hisin. cbn [orb dataStartRow companyColIndex totalColIndex].
    rewrite length_take.
    rewrite (proj2 (Z.ltb_ge _ _)) by lia.
    f_equal. lia.
  - apply Forall_lookup. intros j r Hj.
    apply lookup_take_Some in Hj as [Hj Hji]. eapply Hpre; eauto.
Qed.

Lemma generic_code_row_starts_data_witness :
  test re_code "Date" = true
  ∧ detectFormat [Some [CStr "Portfolio"];
                  Some [CStr "Date"; CStr "Company Name"; CStr "Quantity"];
                  Some [CStr "1-Jan"; CStr "Infosys"; CNum (of_Z 100)]]
    = Mapping 1 1 9.
Proof.
  destruct (generic_code_row_starts_data
              [Some [CStr "Portfolio"];
               Some [CStr "Date"; CStr "Company Name"; CStr "Quantity"];
               Some [CStr "1-Jan"; CStr "Infosys"; CNum (of_Z 100)]]
              1 [CStr "Date"; CStr "Company Name"; CStr "Quantity"])
    as (Hc & _ & Hd).
  - lia.
  - reflexivity.
  - cbn. lia.
  - intros [|j] r Hj Hr; [|lia]. injection Hr as <-. cbn. lia.
  - vm_compute. lia.
  - reflexivity.
  - reflexivity.
  - split; [exact Hc|exact Hd].
Defined.

(** ** Numbers as rationals *)

Lemma pow10_pos n : 0 < pow10 n.
Proof. unfold pow10. apply Z.pow_pos_nonneg; lia. Qed.

Lemma pow10_den n : Z.pos (Z.to_pos (pow10 n)) = pow10 n.
Proof. apply Z2Pos.id, pow10_pos. Qed.

Lemma pow10_add n m : pow10 (n + m) = pow10 n * pow10 m.
Proof. unfold pow10. rewrite Nat2Z.inj_add, Z.pow_add_r by lia. reflexivity. Qed.

Lemma dec_value_add x y :
  (dec_value (dec_add x y) == dec_value x + dec_value y)%Q.
Proof.
  unfold dec_value, dec_add, Qeq, Qplus. cbn [Qnum Qden mant scale].
  rewrite Pos2Z.inj_mul, !pow10_den, pow10_add. ring.
Qed.

Lemma dec_value_zero d : mant d = 0 → (dec_value d == 0)%Q.
Proof. intros H. unfold dec_value, Qeq. cbn. rewrite H. reflexivity. Qed.

Lemma dec_value_zero_inv d : (dec_value d == 0)%Q → mant d = 0.
Proof. unfold dec_value, Qeq. cbn. lia. Qed.

Lemma same_number_refl x : same_number x x.
Proof. destruct x; cbn; reflexivity || exact I. Qed.

Lemma same_number_sym x y : same_number x y → same_number y x.
Proof. destruct x, y; cbn; auto. intros H. symmetry. exact H. Qed.

Lemma same_number_trans x y z : same_number x y → same_number y z → same_number x z.
Proof.
  destruct x, y, z; cbn; try tauto; try congruence.
  intros H1 H2. rewrite H1. exact H2.
Qed.

Lemma same_number_finite x y :
  is_finite x = true → is_finite y = true → (qv x == qv y)%Q → same_number x y.
Proof. destruct x, y; cbn; try discriminate. auto. Qed.

Lemma add_finite x y :
  is_finite x = true → is_finite y = true → is_finite (add x y) = true.
Proof. destruct x, y; cbn; try discriminate. reflexivity. Qed.

Lemma qv_add x y :
  is_finite x = true → is_finite y = true → (qv (add x y) == qv x + qv y)%Q.
Proof. destruct x, y; cbn; try discriminate. intros _ _. apply dec_value_add. Qed.

Lemma or0_finite v : finite_opt v → is_finite (or0 v) = true.
Proof.
  intros H. destruct v as [x|]; cbn; [|reflexivity].
  destruct (truthy x); [apply H|]; reflexivity.
Qed.

Lemma qv_or0 v : (qv (or0 v) == qvo v)%Q.
Proof.
  destruct v as [[| |d]|]; cbn; try reflexivity.
  destruct (Z.eqb_spec (mant d) 0) as [H|H]; cbn; [|reflexivity].
  symmetry. apply dec_value_zero, H.
Qed.

Lemma add_same x x' y y' :
  same_number x x' → same_number y y' → same_number (add x y) (add x' y').
Proof.
  destruct x, x', y, y'; cbn; try tauto; try congruence.
  - intros <- <-. destruct (Bool.eqb neg neg1); cbn; auto.
  - intros H1 H2. rewrite !dec_value_add, H1, H2. reflexivity.
Qed.

Lemma truthy_same x y : same_number x y → truthy x = truthy y.
Proof.
  destruct x as [| |d], y as [| |d']; cbn; try tauto.
  intros H.
  destruct (Z.eqb_spec (mant d) 0) as [H0|H0], (Z.eqb_spec (mant d') 0) as [H0'|H0'];
    try reflexivity; exfalso.
  - apply H0', dec_value_zero_inv. rewrite <- H. apply dec_value_zero, H0.
  - apply H0, dec_value_zero_inv. rewrite H. apply dec_value_zero, H0'.
Qed.

Lemma or0_same v v' : opt_rel same_number v v' → same_number (or0 v) (or0 v').
Proof.
  destruct v as [x|], v' as [y|]; cbn; try tauto; [|intros _; reflexivity].
  intros H. rewrite (truthy_same _ _ H). destruct (truthy y); [exact H|reflexivity].
Qed.

Lemma toNumber_same v v' : opt_rel same_number v v' → same_number (toNumber v) (toNumber v').
Proof. destruct v, v'; cbn; tauto. Qed.

(** ** Objects *)

Section ObjectFacts.
Context {V : Type}.
Implicit Types (o : obj V) (k : string) (v : V).

Lemma get_set_eq k v o : get k (set k v o) = Some v.
Proof.
  induction o as [|[k' v'] o IH]; cbn.
  - rewrite String.eqb_refl. reflexivity.
  - destruct (String.eqb_spec k' k) as [->|Hne]; cbn.
    + rewrite String.eqb_refl. reflexivity.
    + rewrite (proj2 (String.eqb_neq _ _) Hne). exact IH.
Qed.

Lemma get_set_ne k k' v o : k ≠ k' → get k' (set k v o) = get k' o.
Proof.
  intros Hne. induction o as [|[k0 v0] o IH]; cbn.
  - rewrite (proj2 (String.eqb_neq _ _) Hne). reflexivity.
  - destruct (String.eqb_spec k0 k) as [->|Hk]; cbn.
    + rewrite (proj2 (String.eqb_neq _ _) Hne). reflexivity.
    + rewrite IH. reflexivity.
Qed.

Lemma get_set k k' v o :
  get k' (set k v o) = if String.eqb k k' then Some v else get k' o.
Proof.
  destruct (String.eqb_spec k k') as [->|Hne];
    [apply get_set_eq|apply get_set_ne, Hne].
Qed.

Lemma Forall_set (P : string * V → Prop) k v o :
  P (k, v) → (∀ k' v', P (k', v') → P (k', v)) → Forall P o → Forall P (set k v o).
Proof.
  intros Hv Hmono H. induction H as [|[k' v'] o Hx Ho IH]; cbn.
  - repeat constructor. exact Hv.
  - destruct (String.eqb k' k); constructor; eauto.
Qed.

Lemma Forall_get (P : string * V → Prop) k v o :
  Forall P o → get k o = Some v → ∃ k', P (k', v).
Proof.
  intros H. induction H as [|[k' v'] o Hx _ IH]; cbn; [discriminate|].
  destruct (String.eqb k' k); [intros [= <-]; eauto|exact IH].
Qed.
End ObjectFacts.

(** ** The pivot fold *)

Lemma foldItem_rowStep pivot item :
  foldItem pivot item
  = set (companyName item)
      (rowStep (ownerName item) (total item)
         (default initialRow (get (companyName item) pivot))) pivot.
Proof. unfold foldItem, rowStep. destruct (get _ pivot); reflexivity. Qed.

Lemma get_foldItem pivot item company :
  get company (foldItem pivot item)
  = if String.eqb (companyName item) company
    then Some (rowStep (ownerName item) (total item)
                 (default initialRow (get (companyName item) pivot)))
    else get company pivot.
Proof. rewrite foldItem_rowStep. apply get_set. Qed.

Lemma get_rowStep owner qty row k :
  get k (rowStep owner qty row)
  = if String.eqb TotalHoldings k
    then Some (add (toNumber (if String.eqb owner TotalHoldings
                              then Some (add (or0 (get owner row)) qty)
                              else get TotalHoldings row)) qty)
    else if String.eqb owner k
         then Some (add (or0 (get owner row)) qty)
         else get k row.
Proof. unfold rowStep. rewrite !get_set. reflexivity. Qed.

Lemma finiteRow_get row k v : finiteRow row → get k row = Some v → is_finite v = true.
Proof. intros [H _] Hg. destruct (Forall_get _ _ _ _ H Hg) as [k' Hk]. exact Hk. Qed.

Lemma finiteRow_finite_opt row k : finiteRow row → finite_opt (get k row).
Proof. intros H v Hv. eapply finiteRow_get; eauto. Qed.

Lemma finiteRow_total row :
  finiteRow row → ∃ T, get TotalHoldings row = Some T ∧ is_finite T = true.
Proof.
  intros H. destruct (proj2 H) as [T HT]. exists T. split; [exact HT|].
  eapply finiteRow_get; eauto.
Qed.

Lemma finiteRow_initial : finiteRow initialRow.
Proof. split; [repeat constructor|eexists; reflexivity]. Qed.

Lemma finiteRow_set row k v :
  finiteRow row → is_finite v = true → finiteRow (set k v row).
Proof.
  intros [H HT] Hv. split.
  - apply Forall_set; auto.
  - rewrite get_set. destruct (String.eqb k TotalHoldings); [eexists; reflexivity|exact HT].
Qed.

Lemma finiteRow_rowStep owner qty row :
  finiteRow row → is_finite qty = true → finiteRow (rowStep owner qty row).
Proof.
  intros Hrow Hq. unfold rowStep.
  assert (H1 : finiteRow (set owner (add (or0 (get owner row)) qty) row)).
  { apply finiteRow_set; [exact Hrow|].
    apply add_finite; [|exact Hq]. apply or0_finite, finiteRow_finite_opt, Hrow. }
  apply finiteRow_set; [exact H1|].
  destruct (finiteRow_total _ H1) as (T & -> & HT). cbn. apply add_finite; assumption.
Qed.

Lemma finiteTable_nil : finiteTable [].
Proof. intros c r H. discriminate H. Qed.

Lemma finiteTable_default t company :
  finiteTable t → finiteRow (default initialRow (get company t)).
Proof.
  intros Ht. destruct (get company t) as [r|] eqn:Hr; cbn;
    [eapply Ht, Hr|apply finiteRow_initial].
Qed.

Lemma finiteTable_foldItem t item :
  finiteTable t → finiteQuantity item → finiteTable (foldItem t item).
Proof.
  intros Ht Hq c r. rewrite get_foldItem.
  destruct (String.eqb _ c); [|apply Ht].
  intros [= <-]. apply finiteRow_rowStep; [|exact Hq]. apply finiteTable_default, Ht.
Qed.

Lemma finiteTable_pivotFold t records :
  finiteTable t → Forall finiteQuantity records → finiteTable (pivotFold t records).
Proof.
  intros Ht H. revert t Ht. induction H as [|h records Hh _ IH]; intros t Ht; cbn;
    [exact Ht|].
  apply IH, finiteTable_foldItem; assumption.
Qed.

(** ** Uploads *)

Lemma processFiles_allData st files :
  allData (processFiles st files)
  = allData st ++ concat (map fst (map processFile files)).
Proof.
  unfold processFiles.
  destruct ((0 <? length _)%nat || (0 <? length (allData st))%nat); reflexivity.
Qed.

Lemma processFiles_stateInv st files :
  stateInv st → stateInv (processFiles st files).
Proof.
  unfold stateInv. intros Hst. rewrite processFiles_allData.
  unfold processFiles.
  destruct (concat (map fst (map processFile files))) as [|h new] eqn:Hnew;
    destruct (allData st) as [|h0 old] eqn:Hold; cbn; try reflexivity.
  exact Hst.
Qed.

Lemma uploads_stateInv batches : stateInv (uploads batches).
Proof.
  unfold uploads.
  assert (H : stateInv initialState) by reflexivity.
  revert H. generalize initialState.
  induction batches as [|files batches IH]; intros st Hst; cbn; [exact Hst|].
  apply IH, processFiles_stateInv, Hst.
Qed.


(** ** The invariant of the pivot table *)

Lemma qsum_set k v row :
  k ≠ TotalHoldings →
  (qsum (set k v row) == qsum row - qvo (get k row) + qv v)%Q.
Proof.
  intros Hk. pose proof (proj2 (String.eqb_neq _ _) Hk) as Hkb.
  induction row as [|[k0 v0] row IH]; cbn [set qsum get qvo].
  - rewrite Hkb. ring.
  - destruct (String.eqb_spec k0 k) as [->|Hne]; cbn [qsum qvo].
    + rewrite Hkb. ring.
    + destruct (String.eqb k0 TotalHoldings); rewrite IH; ring.
Qed.

Lemma qsum_set_total v row : (qsum (set TotalHoldings v row) == qsum row)%Q.
Proof.
  induction row as [|[k0 v0] row IH]; cbn [set qsum]; [reflexivity|].
  destruct (String.eqb k0 TotalHoldings) eqn:Hk; cbn [qsum]; rewrite Hk.
  - reflexivity.
  - rewrite IH. reflexivity.
Qed.

Lemma ownerSum_finite row :
  Forall (λ e, is_finite (snd e) = true) row →
  is_finite (ownerSum row) = true ∧ (qv (ownerSum row) == qsum row)%Q.
Proof.
  intros H. induction H as [|[k v] row Hv _ [IHf IHq]]; cbn; [split; reflexivity|].
  fold (ownerSum row). destruct (String.eqb k TotalHoldings); [split; assumption|].
  split; [apply add_finite; assumption|].
  rewrite qv_add by assumption. rewrite IHq. reflexivity.
Qed.

Lemma rowInv_initial : rowInv initialRow.
Proof.
  split; [apply finiteRow_initial|]. exists (of_Z 0). split; reflexivity.
Qed.

Lemma rowInv_rowStep owner qty row :
  owner ≠ TotalHoldings → is_finite qty = true →
  rowInv row → rowInv (rowStep owner qty row).
Proof.
  intros Ho Hq [Hfin (T & HT & Hsum)].
  split; [apply finiteRow_rowStep; assumption|].
  pose proof (finiteRow_get _ _ _ Hfin HT) as HTf.
  pose proof (or0_finite _ (finiteRow_finite_opt _ owner Hfin)) as Hof.
  unfold rowStep. rewrite (get_set_ne owner TotalHoldings) by exact Ho.
  rewrite HT. cbn [toNumber]. eexists. split; [apply get_set_eq|].
  rewrite qsum_set_total, qsum_set by exact Ho.
  rewrite !qv_add by assumption. rewrite qv_or0, Hsum. ring.
Qed.

Lemma tableInv_foldItem t item :
  regularRecord item → tableInv t → tableInv (foldItem t item).
Proof.
  intros [Hq Ho] Ht c r. rewrite get_foldItem.
  destruct (String.eqb _ c); [|apply Ht].
  intros [= <-]. apply rowInv_rowStep; [exact Ho|exact Hq|].
  destruct (get (companyName item) t) as [r|] eqn:Hr; cbn;
    [eapply Ht, Hr|apply rowInv_initial].
Qed.

Lemma tableInv_pivotFold t records :
  Forall regularRecord records → tableInv t → tableInv (pivotFold t records).
Proof.
  intros H. revert t. induction H as [|h records Hh _ IH]; intros t Ht; cbn;
    [exact Ht|].
  apply IH, tableInv_foldItem; assumption.
Qed.

Lemma tableInv_totalIsOwnerSum t : tableInv t → totalIsOwnerSum t.
Proof.
  intros Ht c r Hr. destruct (Ht c r Hr) as [Hfin (T & HT & Hsum)].
  exists T. split; [exact HT|].
  destruct (ownerSum_finite r (proj1 Hfin)) as [Hsf Hsq].
  apply same_number_finite; [eapply finiteRow_get; eauto|exact Hsf|].
  rewrite Hsum, Hsq. reflexivity.
Qed.

(** ** Integer tables *)

Lemma add_of_Z a b : add (of_Z a) (of_Z b) = of_Z (a + b).
Proof.
  unfold of_Z, add, dec_add. cbn [mant scale plus]. change (pow10 0) with 1.
  rewrite !Z.mul_1_r. reflexivity.
Qed.

Lemma integerValue_of_Z x z : integerValue x = Some z → x = of_Z z.
Proof. destruct x as [| |[m [|sc]]]; cbn; try discriminate. intros [= ->]. reflexivity. Qed.

Lemma safeRecord_regular h : safeRecord h → regularRecord h.
Proof.
  intros ([z Hz] & Ho & _). split; [|exact Ho].
  unfold finiteQuantity. rewrite (integerValue_of_Z _ _ Hz). reflexivity.
Qed.

Lemma safeRecords_regular records : safeRecords records → Forall regularRecord records.
Proof. intros [H _]. eapply Forall_impl; [exact H|]. apply safeRecord_regular. Qed.

Lemma magnitude_nonneg h : 0 ≤ magnitude h.
Proof. unfold magnitude. destruct (total h); lia. Qed.

Lemma sumMagnitudes_nonneg records : 0 ≤ sumMagnitudes records.
Proof.
  induction records as [|h l IH]; unfold sumMagnitudes in *; cbn [foldr]; [lia|].
  pose proof (magnitude_nonneg h). lia.
Qed.

Lemma sumMagnitudes_app l1 l2 :
  sumMagnitudes (l1 ++ l2) = sumMagnitudes l1 + sumMagnitudes l2.
Proof.
  induction l1 as [|h l IH]; unfold sumMagnitudes in *; cbn [foldr app]; [reflexivity|].
  rewrite IH. lia.
Qed.

Lemma sumMagnitudes_perm l1 l2 : l1 ≡ₚ l2 → sumMagnitudes l1 = sumMagnitudes l2.
Proof. induction 1; unfold sumMagnitudes in *; cbn [foldr] in *; lia. Qed.

Lemma safeRecords_take k records : safeRecords records → safeRecords (take k records).
Proof.
  intros [H Hb]. split; [apply Forall_take, H|].
  rewrite <- (take_drop k records), sumMagnitudes_app in Hb.
  pose proof (sumMagnitudes_nonneg (drop k records)). lia.
Qed.

Lemma safeRecords_perm l1 l2 : l1 ≡ₚ l2 → safeRecords l2 → safeRecords l1.
Proof.
  intros Hp [H Hb]. split; [rewrite Hp; exact H|].
  rewrite (sumMagnitudes_perm _ _ Hp). exact Hb.
Qed.

Lemma integerRow_mono b b' row : b ≤ b' → integerRow b row → integerRow b' row.
Proof.
  intros Hb H. eapply Forall_impl; [exact H|]. intros e (z & Hz & Hle). exists z.
  split; [exact Hz|lia].
Qed.

Lemma integerRow_get b row k v :
  integerRow b row → get k row = Some v → ∃ z, v = of_Z z ∧ Z.abs z ≤ b.
Proof. intros H Hg. destruct (Forall_get _ _ _ _ H Hg) as [k' Hk]. exact Hk. Qed.

Lemma integerRow_set b row k z :
  integerRow b row → Z.abs z ≤ b → integerRow b (set k (of_Z z) row).
Proof.
  intros H Hz. apply Forall_set; [exists z; auto| |exact H].
  intros k' v' _. exists z. auto.
Qed.

Lemma integerRow_rowStep b owner q row :
  owner ≠ TotalHoldings → 0 ≤ b →
  integerRow b row → is_Some (get TotalHoldings row) →
  integerRow (b + Z.abs q) (rowStep owner (of_Z q) row)
  ∧ is_Some (get TotalHoldings (rowStep owner (of_Z q) row)).
Proof.
  intros Ho Hb Hrow [T HT]. unfold rowStep.
  assert (Hown : ∃ z, or0 (get owner row) = of_Z z ∧ Z.abs z ≤ b).
  { destruct (get owner row) as [v|] eqn:Hv; cbn [or0]; [|exists 0; split; [reflexivity|lia]].
    destruct (integerRow_get _ _ _ _ Hrow Hv) as (z & -> & Hz).
    destruct (truthy (of_Z z)); [exists z; auto|exists 0; split; [reflexivity|lia]]. }
  destruct Hown as (z & -> & Hz).
  destruct (integerRow_get _ _ _ _ Hrow HT) as (t & -> & Ht).
  rewrite (get_set_ne owner TotalHoldings) by exact Ho. rewrite HT. cbn [toNumber].
  rewrite !add_of_Z. split; [|rewrite get_set_eq; eexists; reflexivity].
  apply integerRow_set; [|lia].
  apply integerRow_set; [|lia].
  apply (integerRow_mono b); [lia|exact Hrow].
Qed.

Lemma integerRow_initial : integerRow 0 initialRow.
Proof. repeat constructor. exists 0. split; [reflexivity|lia]. Qed.

Lemma integerTable_pivotFold b t records :
  0 ≤ b →
  integerTable b t → (∀ c r, get c t = Some r → is_Some (get TotalHoldings r)) →
  Forall safeRecord records →
  integerTable (b + sumMagnitudes records) (pivotFold t records)
  ∧ (∀ c r, get c (pivotFold t records) = Some r → is_Some (get TotalHoldings r)).
Proof.
  intros Hb Ht HT H. revert b t Hb Ht HT.
  induction H as [|h records Hh _ IH]; intros b t Hb Ht HT; cbn [pivotFold fold_left].
  - cbn. rewrite Z.add_0_r. split; assumption.
  - destruct Hh as ([q Hq] & Ho & _). apply integerValue_of_Z in Hq.
    assert (Hm : magnitude h = Z.abs q) by (unfold magnitude; rewrite Hq; reflexivity).
    change (fold_left foldItem records (foldItem t h)) with (pivotFold (foldItem t h) records).
    cbn [sumMagnitudes foldr]. fold (sumMagnitudes records). rewrite Hm.
    replace (b + (Z.abs q + sumMagnitudes records))
      with ((b + Z.abs q) + sumMagnitudes records) by lia.
    assert (Hrow : integerRow b (default initialRow (get (companyName h) t))
                   ∧ is_Some (get TotalHoldings (default initialRow (get (companyName h) t)))).
    { destruct (get (companyName h) t) as [r|] eqn:Hr; cbn [default].
      - split; [eapply Ht, Hr|eapply HT, Hr].
      - split; [apply (integerRow_mono 0); [lia|apply integerRow_initial]|].
        eexists; reflexivity. }
    destruct (integerRow_rowStep b (ownerName h) q _ Ho Hb (proj1 Hrow) (proj2 Hrow))
      as [Hstep HstepT].
    apply IH; [lia| |].
    + intros c r. rewrite get_foldItem, Hq.
      destruct (String.eqb _ c); [intros [= <-]; exact Hstep|].
      intros Hr. apply (integerRow_mono b); [lia|eapply Ht, Hr].
    + intros c r. rewrite get_foldItem, Hq.
      destruct (String.eqb _ c); [intros [= <-]; exact HstepT|apply HT].
Qed.

Lemma integerTable_buildPivot records :
  safeRecords records → integerTable (2 ^ 53) (buildPivot records).
Proof.
  intros [H Hb]. unfold buildPivot.
  assert (Hnil : ∀ c (r : PivotRow), get c ([] : PivotData) = Some r → False)
    by (intros c r Hr; discriminate Hr).
  destruct (integerTable_pivotFold 0 [] records (Z.le_refl 0)) as [Ht _].
  - intros c r Hr. destruct (Hnil c r Hr).
  - intros c r Hr. destruct (Hnil c r Hr).
  - exact H.
  - intros c r Hr. apply (integerRow_mono (0 + sumMagnitudes records)).
    + rewrite Z.add_0_l. exact Hb.
    + eapply Ht, Hr.
Qed.

Lemma same_number_of_Z a b : same_number (of_Z a) (of_Z b) → a = b.
Proof.
  unfold of_Z, same_number, dec_value, Qeq. cbn [mant scale Qnum Qden].
  change (pow10 0) with 1. change (Z.pos (Z.to_pos 1)) with 1. lia.
Qed.

Lemma ownerSum_integer b row : integerRow b row → is_Some (integerValue (ownerSum row)).
Proof.
  intros H. induction H as [|[k v] row (z & Hv & _) _ [s Hs]]; [eexists; reflexivity|].
  cbn [ownerSum foldr fst snd]. fold (ownerSum row). cbn [snd] in Hv.
  destruct (String.eqb k TotalHoldings); [eexists; exact Hs|].
  rewrite Hv, (integerValue_of_Z _ _ Hs), add_of_Z. eexists; reflexivity.
Qed.

Lemma sampleRecords_safe : safeRecords sampleRecords.
Proof.
  split; [|vm_compute; discriminate].
  repeat constructor; try (eexists; reflexivity); discriminate.
Defined.

Lemma same_cells_integer b t t' :
  integerTable b t → integerTable b t' → same_table t t' → same_cells t t'.
Proof.
  intros Ht Ht' Hsame company key. unfold pivotCell.
  specialize (Hsame company).
  destruct (get company t) as [r|] eqn:Hr, (get company t') as [r'|] eqn:Hr';
    cbn in Hsame; try contradiction; [|reflexivity].
  specialize (Hsame key).
  destruct (get key r) as [v|] eqn:Hv, (get key r') as [v'|] eqn:Hv';
    cbn in Hsame; try contradiction; [|reflexivity].
  destruct (integerRow_get _ _ _ _ (Ht _ _ Hr) Hv) as (z & -> & _).
  destruct (integerRow_get _ _ _ _ (Ht' _ _ Hr') Hv') as (z' & -> & _).
  do 2 f_equal. apply same_number_of_Z, Hsame.
Qed.

(** C3 as stated fails in two ways.  A file named "Total Holdings.xlsx"
    gives the owner "Total Holdings", whose quantity is written twice
    into the total and into no owner column; and once a total is [NaN]
    (an infinite quantity met its opposite) the owner column restarts
    from 0 while the total stays [NaN]. *)
Lemma total_differs_from_owner_sum :
  extractOwnerFromFilename "Total Holdings.xlsx" = "Total Holdings"
  ∧ pivotData (uploads [[totalHoldingsFile]])
    = Some [("Infosys", [(TotalHoldings, of_Z 14)])]
  ∧ ¬ totalIsOwnerSum (buildPivot [Holding "Infosys" (of_Z 7) "Total Holdings"])
  ∧ pivotData (uploads [[infiniteFirstFile]])
    = Some [("Infosys", [(TotalHoldings, NaN); ("Alice", of_Z 5)])]
  ∧ ¬ totalIsOwnerSum
        (buildPivot [Holding "Infosys" (Inf false) "Alice"; Holding "Infosys" (Inf true) "Alice";
                     Holding "Infosys" (of_Z 5) "Alice"]).
Proof.
  split; [vm_compute; reflexivity|]. split; [vm_compute; reflexivity|]. split.
  { intros H. destruct (H "Infosys" _ eq_refl) as (T & HT & Hs).
    injection HT as <-. vm_compute in Hs. discriminate Hs. }
  split; [vm_compute; reflexivity|].
  intros H. destruct (H "Infosys" _ eq_refl) as (T & HT & Hs).
  injection HT as <-. exact Hs.
Qed.

(** C3 as amended: over records with integer quantities whose
    magnitudes add up to 2^53 at most, with companies and owners that
    are no property names of [Object.prototype] and owners other than
    "Total Holdings", after every fold every value of the table is an
    integer of magnitude 2^53 at most (so no sum has been rounded) and
    the total of every company is the sum of its owner values. *)
Theorem total_is_owner_sum records (k : nat) :
  safeRecords records →
  integerTable (2 ^ 53) (buildPivot (take k records))
  ∧ totalIsOwnerSum (buildPivot (take k records))
  ∧ ∀ company row,
      get company (buildPivot (take k records)) = Some row →
      get TotalHoldings row = Some (ownerSum row).
Proof.
  intros Hsafe. apply (safeRecords_take k) in Hsafe.
  pose proof (integerTable_buildPivot _ Hsafe) as Hint.
  assert (Hsum : totalIsOwnerSum (buildPivot (take k records))).
  { apply tableInv_totalIsOwnerSum, tableInv_pivotFold;
      [apply safeRecords_regular, Hsafe|].
    intros c r Hr. discriminate Hr. }
  split; [exact Hint|]. split; [exact Hsum|].
  intros company row Hrow. destruct (Hsum company row Hrow) as (T & HT & Hsame).
  rewrite HT. f_equal.
  destruct (integerRow_get _ _ _ _ (Hint company row Hrow) HT) as (t & -> & _).
  destruct (ownerSum_integer _ _ (Hint company row Hrow)) as [s Hs].
  apply integerValue_of_Z in Hs. rewrite Hs in Hsame |- *.
  f_equal. apply same_number_of_Z, Hsame.
Qed.

Example sampleRecords_pivot :
  buildPivot sampleRecords
  = [("Infosys", [(TotalHoldings, of_Z 150); ("Alice", of_Z 100); ("Bob", of_Z 50)]);
     ("TCS", [(TotalHoldings, of_Z 20); ("Bob", of_Z 20)])].
Proof. vm_compute. reflexivity. Qed.

Lemma total_is_owner_sum_witness :
  safeRecords sampleRecords
  ∧ totalIsOwnerSum (buildPivot sampleRecords)
  ∧ get TotalHoldings [(TotalHoldings, of_Z 150); ("Alice", of_Z 100); ("Bob", of_Z 50)]
    = Some (ownerSum [(TotalHoldings, of_Z 150); ("Alice", of_Z 100); ("Bob", of_Z 50)]).
Proof.
  split; [exact sampleRecords_safe|].
  split; [exact (proj1 (proj2 (total_is_owner_sum sampleRecords 3 sampleRecords_safe)))|].
  exact (proj2 (proj2 (total_is_owner_sum sampleRecords 3 sampleRecords_safe))
           "Infosys" _ eq_refl).
Defined.

(** ** Order of the records *)

Lemma opt_rel_refl {A} (R : A → A → Prop) x : (∀ a, R a a) → opt_rel R x x.
Proof. intros H. destruct x; cbn; auto. Qed.

Lemma opt_rel_trans {A} (R : A → A → Prop) x y z :
  (∀ a b c, R a b → R b c → R a c) → opt_rel R x y → opt_rel R y z → opt_rel R x z.
Proof. intros H. destruct x, y, z; cbn; try tauto. apply H. Qed.

Lemma same_row_refl r : same_row r r.
Proof. intros k. apply opt_rel_refl, same_number_refl. Qed.

Lemma same_row_trans r1 r2 r3 : same_row r1 r2 → same_row r2 r3 → same_row r1 r3.
Proof.
  intros H1 H2 k. eapply opt_rel_trans; [apply same_number_trans|apply H1|apply H2].
Qed.

Lemma same_table_refl t : same_table t t.
Proof. intros c. apply opt_rel_refl, same_row_refl. Qed.

Lemma same_table_trans t1 t2 t3 : same_table t1 t2 → same_table t2 t3 → same_table t1 t3.
Proof.
  intros H1 H2 c. eapply opt_rel_trans; [apply same_row_trans|apply H1|apply H2].
Qed.

Lemma rowStep_same owner qty r r' :
  same_row r r' → same_row (rowStep owner qty r) (rowStep owner qty r').
Proof.
  intros H k. rewrite !get_rowStep.
  assert (Ho : same_number (add (or0 (get owner r)) qty) (add (or0 (get owner r')) qty))
    by (apply add_same; [apply or0_same, H|apply same_number_refl]).
  destruct (String.eqb TotalHoldings k); cbn [opt_rel].
  - apply add_same; [|apply same_number_refl]. apply toNumber_same.
    destruct (String.eqb owner TotalHoldings); [exact Ho|apply H].
  - destruct (String.eqb owner k); [exact Ho|apply H].
Qed.

Lemma foldItem_same t t' item :
  same_table t t' → same_table (foldItem t item) (foldItem t' item).
Proof.
  intros H c. rewrite !get_foldItem.
  destruct (String.eqb _ c); [|apply H]. cbn [opt_rel]. apply rowStep_same.
  specialize (H (companyName item)).
  destruct (get _ t), (get _ t'); cbn in *; try tauto. apply same_row_refl.
Qed.

Lemma pivotFold_same t t' records :
  same_table t t' → same_table (pivotFold t records) (pivotFold t' records).
Proof.
  revert t t'. induction records as [|h records IH]; intros t t' H; cbn; [exact H|].
  apply IH, foldItem_same, H.
Qed.

Lemma finite_opt_Some x : is_finite x = true → finite_opt (Some x).
Proof. intros H y [= <-]. exact H. Qed.

Ltac finite_tac :=
  repeat first
    [ assumption
    | apply add_finite
    | apply or0_finite
    | apply finite_opt_Some
    | apply finiteRow_finite_opt ].

Ltac qv_norm :=
  repeat first
    [ rewrite qv_add by finite_tac
    | rewrite qv_or0
    | progress cbn [qvo toNumber] ].

Lemma rowStep_comm oa qa ob qb r :
  finiteRow r → is_finite qa = true → is_finite qb = true →
  same_row (rowStep ob qb (rowStep oa qa r)) (rowStep oa qa (rowStep ob qb r)).
Proof.
  intros Hr Ha Hb k.
  destruct (finiteRow_total _ Hr) as (T & HT & HTf).
  rewrite !get_rowStep.
  repeat match goal with
         | |- context [String.eqb ?a ?b] =>
             destruct (String.eqb_spec a b); subst; try congruence
         end;
    rewrite ?HT; cbn [opt_rel toNumber];
    try (apply opt_rel_refl, same_number_refl);
    (apply same_number_finite; [finite_tac|finite_tac|qv_norm; ring]).
Qed.

Lemma foldItem_comm t a b :
  finiteTable t → finiteQuantity a → finiteQuantity b →
  same_table (foldItem (foldItem t a) b) (foldItem (foldItem t b) a).
Proof.
  intros Ht Ha Hb c. rewrite !get_foldItem.
  destruct (String.eqb_spec (companyName a) (companyName b)) as [Hab|Hab].
  - rewrite <- Hab, !String.eqb_refl. cbn [default].
    destruct (String.eqb (companyName a) c); cbn [opt_rel].
    + apply rowStep_comm; [apply finiteTable_default, Ht|exact Ha|exact Hb].
    + apply opt_rel_refl, same_row_refl.
  - rewrite (proj2 (String.eqb_neq (companyName b) (companyName a))) by congruence.
    destruct (String.eqb_spec (companyName b) c) as [Hb'|Hb'];
      destruct (String.eqb_spec (companyName a) c) as [Ha'|Ha'];
      try congruence; apply opt_rel_refl, same_row_refl.
Qed.

Lemma pivotFold_perm t records records' :
  records ≡ₚ records' →
  finiteTable t → Forall finiteQuantity records →
  same_table (pivotFold t records) (pivotFold t records').
Proof.
  intros Hp. revert t.
  induction Hp as [|h l l' _ IH|x y l|l1 l2 l3 Hp1 IH1 Hp2 IH2]; intros t Ht Hf.
  - apply same_table_refl.
  - cbn. apply Forall_cons in Hf as [Hh Hf].
    apply IH; [apply finiteTable_foldItem; assumption|exact Hf].
  - cbn. apply Forall_cons in Hf as [Hy Hf]. apply Forall_cons in Hf as [Hx Hf].
    apply pivotFold_same, foldItem_comm; assumption.
  - eapply same_table_trans; [apply IH1; assumption|].
    apply IH2; [exact Ht|]. rewrite <- Hp1. exact Hf.
Qed.

Lemma pivotFold_concat t (chunks : list (list HoldingData)) :
  fold_left pivotFold chunks t = pivotFold t (concat chunks).
Proof.
  revert t. induction chunks as [|l chunks IH]; intros t; cbn; [reflexivity|].
  rewrite IH. unfold pivotFold. rewrite fold_left_app. reflexivity.
Qed.

(** C4 as stated fails: once an infinite quantity has met its opposite
    the owner column holds [NaN], which the next record treats as 0, so
    the place of the finite record in the order shows in the result. *)
Lemma order_changes_table :
  allData (uploads [[infiniteFirstFile]]) ≡ₚ allData (uploads [[infiniteLastFile]])
  ∧ pivotData (uploads [[infiniteFirstFile]])
    = Some [("Infosys", [(TotalHoldings, NaN); ("Alice", of_Z 5)])]
  ∧ pivotData (uploads [[infiniteLastFile]])
    = Some [("Infosys", [(TotalHoldings, NaN); ("Alice", NaN)])]
  ∧ ¬ same_table
        (buildPivot [Holding "Infosys" (Inf false) "Alice"; Holding "Infosys" (Inf true) "Alice";
                     Holding "Infosys" (of_Z 5) "Alice"])
        (buildPivot [Holding "Infosys" (of_Z 5) "Alice"; Holding "Infosys" (Inf false) "Alice";
                     Holding "Infosys" (Inf true) "Alice"]).
Proof.
  split.
  { vm_compute. etransitivity; [apply perm_skip, perm_swap|apply perm_swap]. }
  split; [vm_compute; reflexivity|]. split; [vm_compute; reflexivity|].
  intros H. specialize (H "Infosys" "Alice"). exact H.
Qed.

(** C4 as amended: over records with integer quantities whose
    magnitudes add up to 2^53 at most, with companies and owners that
    are no property names of [Object.prototype] and owners other than
    "Total Holdings", the records taken in any order and cut into any
    number of successive folds give the same table: the same companies,
    the same owners under each, and the same integer, of magnitude 2^53
    at most, at every owner and at every "Total Holdings". *)
Theorem fold_order_irrelevant (chunks : list (list HoldingData)) records :
  safeRecords records →
  concat chunks ≡ₚ records →
  same_table (fold_left pivotFold chunks []) (buildPivot records)
  ∧ same_cells (fold_left pivotFold chunks []) (buildPivot records)
  ∧ integerTable (2 ^ 53) (fold_left pivotFold chunks []).
Proof.
  intros Hsafe Hp. rewrite pivotFold_concat. fold (buildPivot (concat chunks)).
  pose proof (safeRecords_perm _ _ Hp Hsafe) as Hsafe'.
  pose proof (integerTable_buildPivot _ Hsafe) as Hint.
  pose proof (integerTable_buildPivot _ Hsafe') as Hint'.
  assert (Hsame : same_table (buildPivot (concat chunks)) (buildPivot records)).
  { unfold buildPivot. apply pivotFold_perm; [exact Hp|apply finiteTable_nil|].
    eapply Forall_impl; [apply safeRecords_regular, Hsafe'|]. intros h [Hh _]. exact Hh. }
  split; [exact Hsame|]. split; [|exact Hint'].
  eapply same_cells_integer; eassumption.
Qed.

Lemma fold_order_irrelevant_witness :
  same_cells
    (fold_left pivotFold
       [[Holding "TCS" (of_Z 20) "Bob"]; [Holding "Infosys" (of_Z 50) "Bob";
                                           Holding "Infosys" (of_Z 100) "Alice"]] [])
    (buildPivot sampleRecords).
Proof.
  apply (fold_order_irrelevant
           [[Holding "TCS" (of_Z 20) "Bob"]; [Holding "Infosys" (of_Z 50) "Bob";
                                               Holding "Infosys" (of_Z 100) "Alice"]]
           sampleRecords sampleRecords_safe).
  exact (Permutation_rev [Holding "TCS" (of_Z 20) "Bob"; Holding "Infosys" (of_Z 50) "Bob";
                          Holding "Infosys" (of_Z 100) "Alice"]).
Defined.

(** * Properties of the further functions *)

(** ** Sorted view, in general *)

Lemma insert_index_perm {V} (i : Z) (e : string * V) l :
  map snd (insert_index i e l) ≡ₚ e :: map snd l.
Proof.
  induction l as [|[j e'] l IH]; cbn; [reflexivity|].
  destruct (i <? j); cbn; [reflexivity|].
  rewrite IH. apply perm_swap.
Qed.

Lemma entries_perm {V} (o : obj V) : entries o ≡ₚ o.
Proof.
  unfold entries. induction o as [|e o IH]; cbn; [reflexivity|].
  destruct (array_index (fst e)); cbn.
  - rewrite insert_index_perm. cbn. apply perm_skip, IH.
  - rewrite <- Permutation_middle. apply perm_skip, IH.
Qed.

Lemma insert_sorted_perm {A} (cmp : A → A → number) x l :
  insert_sorted cmp x l ≡ₚ x :: l.
Proof.
  induction l as [|y l IH]; cbn; [reflexivity|].
  destruct (sign (cmp x y)); try reflexivity.
  rewrite IH. apply perm_swap.
Qed.

Lemma stable_sort_perm {A} (cmp : A → A → number) l : stable_sort cmp l ≡ₚ l.
Proof.
  induction l as [|x l IH]; cbn; [reflexivity|].
  rewrite insert_sorted_perm. apply perm_skip, IH.
Qed.

(** X1: whatever the column, the direction and the collation, the
    sorted view holds the entries of the table, each once: sorting
    neither drops nor repeats nor alters a row. *)
Theorem getSortedEntries_perm localeCompare column direction (data : PivotData) :
  getSortedEntries localeCompare column direction data ≡ₚ data.
Proof.
  unfold getSortedEntries. destruct column as [col|]; [|apply entries_perm].
  destruct (is_empty col); [apply entries_perm|].
  rewrite stable_sort_perm. apply entries_perm.
Qed.




(** ** Sorting by a finite value *)

Lemma sign_sub_finite x y :
  is_finite x = true → is_finite y = true → sign (sub x y) = (qv x ?= qv y)%Q.
Proof.
  destruct x as [| |a], y as [| |b]; cbn [is_finite]; try discriminate. intros _ _.
  unfold sub, opp, add, dec_add, sign, qv, dec_value, Qcompare.
  cbn [mant scale Qnum Qden]. rewrite !pow10_den.
  rewrite Z.mul_opp_l, Z.add_opp_r. symmetry. apply Z.compare_sub.
Qed.

Lemma Qcompare_opp (a b : Q) : (- a ?= - b)%Q = (b ?= a)%Q.
Proof.
  unfold Qcompare. cbn [Qopp Qnum Qden]. rewrite !Z.mul_opp_l. apply Z.compare_opp.
Qed.

Lemma sortedBy_impl {A} (R R' : A → A → Prop) l :
  (∀ a b, a ∈ l → b ∈ l → R a b → R' a b) → sortedBy R l → sortedBy R' l.
Proof.
  induction l as [|x l IH]; cbn [sortedBy]; intros Himp H; [exact I|].
  destruct H as [Hx Hl]. split.
  - apply Forall_forall. intros b Hb. apply Himp; [left|right; exact Hb|].
    eapply Forall_forall in Hx; [exact Hx|exact Hb].
  - apply IH; [|exact Hl]. intros a b Ha Hb. apply Himp; right; assumption.
Qed.

Section RankedSort.
Context {A : Type} (cmp : A → A → number) (rank : A → Q).

Lemma insert_sorted_ranked x l :
  (∀ y, y ∈ l → sign (cmp x y) = (rank x ?= rank y)%Q) →
  sortedBy (λ a b, (rank a <= rank b)%Q) l →
  sortedBy (λ a b, (rank a <= rank b)%Q) (insert_sorted cmp x l).
Proof.
  induction l as [|y l IH]; intros Hx Hl; cbn [insert_sorted sortedBy];
    [split; [constructor|exact I]|].
  destruct Hl as [Hy Hl].
  assert (Hhead : ∀ c, sign (cmp x y) = c → c ≠ Gt →
            sortedBy (λ a b, (rank a <= rank b)%Q) (x :: y :: l)).
  { intros c Hc Hne. rewrite (Hx y) in Hc by left.
    assert (Hxy : (rank x <= rank y)%Q) by (apply (proj2 (Qle_alt _ _)); congruence).
    cbn [sortedBy]. split; [|split; assumption].
    constructor; [exact Hxy|]. eapply Forall_impl; [exact Hy|].
    intros b Hb. cbn beta in Hb. eapply Qle_trans; eassumption. }
  destruct (sign (cmp x y)) eqn:Hc; [apply (Hhead Eq); congruence|apply (Hhead Lt); congruence|].
  rewrite (Hx y) in Hc by left. apply Qgt_alt in Hc.
  cbn [sortedBy]. split.
  - rewrite insert_sorted_perm. constructor; [apply Qlt_le_weak, Hc|exact Hy].
  - apply IH; [|exact Hl]. intros z Hz. apply Hx. right. exact Hz.
Qed.

Lemma stable_sort_ranked l :
  (∀ a b, a ∈ l → b ∈ l → sign (cmp a b) = (rank a ?= rank b)%Q) →
  sortedBy (λ a b, (rank a <= rank b)%Q) (stable_sort cmp l).
Proof.
  induction l as [|x l IH]; intros H; [exact I|].
  change (stable_sort cmp (x :: l)) with (insert_sorted cmp x (stable_sort cmp l)).
  apply insert_sorted_ranked.
  - intros y Hy. rewrite stable_sort_perm in Hy. apply H; [left|right; exact Hy].
  - apply IH. intros a b Ha Hb. apply H; right; assumption.
Qed.

Lemma filter_insert_sorted (p : A → bool) x l :
  (∀ y, y ∈ l → p x = true → sign (cmp x y) = Gt → p y = false) →
  List.filter p (insert_sorted cmp x l) = List.filter p (x :: l).
Proof.
  induction l as [|y l IH]; intros H; cbn [insert_sorted]; [reflexivity|].
  destruct (sign (cmp x y)) eqn:Hc; try reflexivity.
  assert (IH' : List.filter p (insert_sorted cmp x l) = List.filter p (x :: l)).
  { apply IH. intros z Hz. apply H. right. exact Hz. }
  cbn [List.filter] in *. rewrite IH'.
  destruct (p x) eqn:Hpx; [|reflexivity].
  rewrite (H y) by (left || reflexivity || exact Hc). reflexivity.
Qed.

Lemma filter_stable_sort (p : A → bool) l :
  (∀ x y, x ∈ l → y ∈ l → p x = true → sign (cmp x y) = Gt → p y = false) →
  List.filter p (stable_sort cmp l) = List.filter p l.
Proof.
  induction l as [|x l IH]; intros H; [reflexivity|].
  change (stable_sort cmp (x :: l)) with (insert_sorted cmp x (stable_sort cmp l)).
  rewrite filter_insert_sorted.
  - cbn [List.filter]. rewrite IH; [reflexivity|].
    intros a b Ha Hb. apply H; right; assumption.
  - intros y Hy. rewrite stable_sort_perm in Hy. apply H; [left|right; exact Hy].
Qed.
End RankedSort.

Lemma compareEntries_numeric localeCompare column direction a b :
  column ≠ "Company Name" →
  compareEntries localeCompare column direction a b
  = match direction with
    | asc => sub (sortValue column a) (sortValue column b)
    | desc => sub (sortValue column b) (sortValue column a)
    end.
Proof.
  intros Hc. unfold compareEntries, sortValue.
  rewrite (proj2 (String.eqb_neq _ _) Hc).
  destruct (String.eqb column TotalHoldings); reflexivity.
Qed.

(** The view sorted by a numeric column whose values are finite. *)
Lemma sorted_view localeCompare column direction (data : PivotData) :
  column ≠ "Company Name" → column ≠ "" →
  Forall (λ e, is_finite (sortValue column e) = true) data →
  sortedBy (λ a b, precedes direction (sortValue column a) (sortValue column b))
    (getSortedEntries localeCompare (Some column) direction data)
  ∧ ∀ v, is_finite v = true →
      List.filter (λ e, tied (sortValue column e) v)
        (getSortedEntries localeCompare (Some column) direction data)
      = List.filter (λ e, tied (sortValue column e) v) (entries data).
Proof.
  intros Hc Hne Hfin.
  assert (Hfin' : ∀ e, e ∈ entries data → is_finite (sortValue column e) = true).
  { intros e He. rewrite entries_perm in He. eapply Forall_forall in Hfin; eauto. }
  unfold getSortedEntries. destruct column as [|c0 column]; [congruence|]. cbn [is_empty].
  set (col := String c0 column) in *.
  set (cmp := compareEntries localeCompare col direction).
  set (rank := λ e : string * PivotRow,
         match direction with
         | asc => qv (sortValue col e)
         | desc => (- qv (sortValue col e))%Q
         end).
  assert (Hrank : ∀ a b, a ∈ entries data → b ∈ entries data →
            sign (cmp a b) = (rank a ?= rank b)%Q).
  { intros a b Ha Hb. unfold cmp, rank. rewrite compareEntries_numeric by exact Hc.
    destruct direction; [|rewrite Qcompare_opp]; apply sign_sub_finite; auto. }
  split.
  - eapply sortedBy_impl; [|apply (stable_sort_ranked cmp rank), Hrank].
    intros a b Ha Hb Hle. rewrite stable_sort_perm in Ha, Hb.
    cbn beta in Hle. apply (proj1 (Qle_alt _ _)) in Hle. rewrite <- (Hrank a b Ha Hb) in Hle.
    unfold cmp in Hle. rewrite compareEntries_numeric in Hle by exact Hc.
    destruct direction; exact Hle.
  - intros v Hv. apply filter_stable_sort. intros x y Hx Hy Hpx Hgt.
    rewrite (Hrank x y Hx Hy) in Hgt. unfold tied in *.
    rewrite sign_sub_finite in Hpx |- * by auto.
    destruct (qv (sortValue col x) ?= qv v)%Q eqn:Hxv; try discriminate.
    apply Qeq_alt in Hxv. apply Qgt_alt in Hgt. unfold rank in Hgt.
    destruct (qv (sortValue col y) ?= qv v)%Q eqn:Hyv; try reflexivity.
    exfalso. apply Qeq_alt in Hyv.
    destruct direction.
    + rewrite Hxv, Hyv in Hgt. exact (Qlt_irrefl _ Hgt).
    + rewrite Hxv, Hyv in Hgt. exact (Qlt_irrefl _ Hgt).
Qed.

(** C7: the descending sort by "Total Holdings" of a table whose totals
    are finite returns the entries of the table, each once, so that no
    row comes before a row with a larger total and rows with the same
    total keep the order they have in the table.  On companies A, B, C
    with totals 50, 50, 10 it returns A, B, C when they were inserted
    in this order, and B, A, C when they were inserted as C, B, A: the
    tie keeps the insertion order and C is last. *)
Theorem sort_by_total_desc_stable localeCompare :
  (∀ data : PivotData,
     Forall (λ e, is_finite (sortValue TotalHoldings e) = true) data →
     getSortedEntries localeCompare (Some "Total Holdings") desc data ≡ₚ entries data
     ∧ sortedBy (λ a b, sign (sub (sortValue TotalHoldings b) (sortValue TotalHoldings a)) ≠ Gt)
         (getSortedEntries localeCompare (Some "Total Holdings") desc data)
     ∧ ∀ v, is_finite v = true →
         List.filter (λ e, tied (sortValue TotalHoldings e) v)
           (getSortedEntries localeCompare (Some "Total Holdings") desc data)
         = List.filter (λ e, tied (sortValue TotalHoldings e) v) (entries data))
  ∧ (∀ rowA rowB rowC : PivotRow,
       get TotalHoldings rowA = Some (of_Z 50) →
       get TotalHoldings rowB = Some (of_Z 50) →
       get TotalHoldings rowC = Some (of_Z 10) →
       getSortedEntries localeCompare (Some "Total Holdings") desc
         [("A", rowA); ("B", rowB); ("C", rowC)]
       = [("A", rowA); ("B", rowB); ("C", rowC)]
       ∧ getSortedEntries localeCompare (Some "Total Holdings") desc
           [("C", rowC); ("B", rowB); ("A", rowA)]
         = [("B", rowB); ("A", rowA); ("C", rowC)]).
Proof.
  split.
  - intros data Hfin. split.
    + unfold getSortedEntries. cbn [is_empty]. apply stable_sort_perm.
    + apply (sorted_view localeCompare TotalHoldings desc data); [discriminate..|exact Hfin].
  - intros rowA rowB rowC HA HB HC.
    assert (He1 : entries [("A", rowA); ("B", rowB); ("C", rowC)]
                  = [("A", rowA); ("B", rowB); ("C", rowC)]) by (vm_compute; reflexivity).
    assert (He2 : entries [("C", rowC); ("B", rowB); ("A", rowA)]
                  = [("C", rowC); ("B", rowB); ("A", rowA)]) by (vm_compute; reflexivity).
    unfold getSortedEntries. cbn [is_empty]. rewrite He1, He2. unfold stable_sort.
    set (cmp := compareEntries localeCompare "Total Holdings" desc).
    assert (Hcmp : ∀ (a b : string * PivotRow) x y, get TotalHoldings (snd a) = Some (of_Z x) →
              get TotalHoldings (snd b) = Some (of_Z y) →
              sign (cmp a b) = (y ?= x)).
    { intros a b x y Ha Hb. unfold cmp. rewrite compareEntries_numeric by discriminate.
      unfold sortValue, TotalHoldings in *. rewrite String.eqb_refl, Ha, Hb. cbn [toNumber].
      unfold sub, opp, of_Z. cbn [mant scale]. change (Fin {| mant := - x; scale := 0 |})
        with (of_Z (- x)). change (Fin {| mant := y; scale := 0 |}) with (of_Z y).
      rewrite add_of_Z. cbn [sign of_Z mant]. rewrite Z.add_opp_r. symmetry.
      apply Z.compare_sub. }
    split; cbn [foldr insert_sorted].
    + rewrite (Hcmp ("B", rowB) ("C", rowC) 50 10) by assumption. cbn [Z.compare Pos.compare Pos.compare_cont insert_sorted].
      rewrite (Hcmp ("A", rowA) ("B", rowB) 50 50) by assumption. reflexivity.
    + rewrite (Hcmp ("B", rowB) ("A", rowA) 50 50) by assumption.
      cbn [Z.compare Pos.compare Pos.compare_cont insert_sorted].
      rewrite (Hcmp ("C", rowC) ("B", rowB) 10 50) by assumption.
      cbn [Z.compare Pos.compare Pos.compare_cont insert_sorted].
      rewrite (Hcmp ("C", rowC) ("A", rowA) 10 50) by assumption. reflexivity.
Qed.

Lemma sort_by_total_desc_stable_witness :
  map fst (entries unsortedTable) = ["C"; "B"; "A"; "D"]
  ∧ map fst (getSortedEntries (λ _ _, NaN) (Some "Total Holdings") desc unsortedTable)
    = ["D"; "B"; "A"; "C"]
  ∧ sortedBy (λ a b, sign (sub (sortValue TotalHoldings b) (sortValue TotalHoldings a)) ≠ Gt)
      (getSortedEntries (λ _ _, NaN) (Some "Total Holdings") desc unsortedTable).
Proof.
  split; [reflexivity|]. split; [reflexivity|].
  apply (proj1 (sort_by_total_desc_stable (λ _ _, NaN)) unsortedTable).
  repeat constructor.
Defined.

(** X2: in the view sorted by a numeric column (an owner or "Total
    Holdings") whose values are finite, in either direction, every row
    may come before every row behind it (no row comes before one that
    the direction puts strictly before it), and rows with the same
    value keep the order they have in the table. *)
Theorem getSortedEntries_in_order localeCompare column direction (data : PivotData) :
  column ≠ "Company Name" → column ≠ "" →
  Forall (λ e, is_finite (sortValue column e) = true) data →
  sortedBy (λ a b, precedes direction (sortValue column a) (sortValue column b))
    (getSortedEntries localeCompare (Some column) direction data)
  ∧ ∀ v, is_finite v = true →
      List.filter (λ e, tied (sortValue column e) v)
        (getSortedEntries localeCompare (Some column) direction data)
      = List.filter (λ e, tied (sortValue column e) v) (entries data).
Proof. exact (sorted_view localeCompare column direction data). Qed.

Lemma getSortedEntries_in_order_witness :
  map fst (getSortedEntries (λ _ _, NaN) (Some "Bob") asc unsortedTable)
  = ["A"; "C"; "B"; "D"]
  ∧ sortedBy (λ a b, precedes asc (sortValue "Bob" a) (sortValue "Bob" b))
      (getSortedEntries (λ _ _, NaN) (Some "Bob") asc unsortedTable).
Proof.
  split; [reflexivity|].
  apply (getSortedEntries_in_order (λ _ _, NaN) "Bob" asc unsortedTable);
    [discriminate|discriminate|repeat constructor].
Defined.

(** ** Column sort state *)

(** X3: a click on a column header selects that column; on a column
    that was not selected the direction becomes ascending for "Company
    Name" and descending for any other, on the selected column it
    flips, so that a second click there undoes the first and a third
    click is a first. *)
Theorem handleSort_toggle column st :
  sortColumn (handleSort column st) = Some column
  ∧ (sortColumn st ≠ Some column →
     sortDirection (handleSort column st) = defaultDirection column)
  ∧ (sortColumn st = Some column →
     sortDirection (handleSort column st) = flipDirection (sortDirection st)
     ∧ handleSort column (handleSort column st) = st)
  ∧ handleSort column (handleSort column (handleSort column st))
    = handleSort column st.
Proof.
  assert (Hsel : ∀ s, sortColumn (handleSort column s) = Some column).
  { intros s. unfold handleSort. destruct (sortColumn s) as [cur|] eqn:Hs; cbn; [|reflexivity].
    destruct (String.eqb_spec cur column) as [->|]; reflexivity. }
  assert (Hsame : ∀ s, sortColumn s = Some column →
            handleSort column s = MkSort (Some column) (flipDirection (sortDirection s))).
  { intros s Hs. unfold handleSort. rewrite Hs, String.eqb_refl. reflexivity. }
  assert (Htwice : ∀ s, sortColumn s = Some column →
            handleSort column (handleSort column s) = s).
  { intros s Hs. rewrite (Hsame _ (Hsel s)), (Hsame s Hs). cbn.
    destruct s as [c d]. cbn in *. subst c. destruct d; reflexivity. }
  split; [apply Hsel|]. split; [|split].
  - intros Hne. unfold handleSort. destruct (sortColumn st) as [cur|]; [|reflexivity].
    destruct (String.eqb_spec cur column) as [->|]; [congruence|reflexivity].
  - intros Hs. split; [rewrite (Hsame st Hs); reflexivity|apply Htwice, Hs].
  - apply Htwice, Hsel.
Qed.

Lemma handleSort_toggle_witness :
  handleSort "Alice" initialSort = MkSort (Some "Alice") desc
  ∧ handleSort "Alice" (handleSort "Alice" (MkSort (Some "Alice") desc))
    = MkSort (Some "Alice") desc.
Proof.
  split; [reflexivity|].
  exact (proj2 (proj1 (proj2 (proj2 (handleSort_toggle "Alice" (MkSort (Some "Alice") desc))))
                  eq_refl)).
Defined.

(** ** Owner columns *)

Lemma existsb_eqb_elem k (l : list string) : existsb (String.eqb k) l = true ↔ k ∈ l.
Proof.
  rewrite existsb_exists. split.
  - intros (x & Hx & He). apply String.eqb_eq in He as ->. apply list_elem_of_In, Hx.
  - intros H. exists k. split; [apply list_elem_of_In, H|apply String.eqb_refl].
Qed.

Lemma elem_of_set_add x k l : x ∈ set_add k l ↔ x = k ∨ x ∈ l.
Proof.
  unfold set_add. destruct (existsb (String.eqb k) l) eqn:He.
  - apply existsb_eqb_elem in He. split; [auto|]. intros [->|H]; assumption.
  - rewrite elem_of_app, list_elem_of_singleton. tauto.
Qed.

Lemma NoDup_set_add k l : NoDup l → NoDup (set_add k l).
Proof.
  intros Hl. unfold set_add. destruct (existsb (String.eqb k) l) eqn:He; [exact Hl|].
  apply NoDup_app. split; [exact Hl|]. split; [|apply NoDup_singleton].
  intros x Hx Hk. apply list_elem_of_singleton in Hk as ->.
  apply existsb_eqb_elem in Hx. congruence.
Qed.

Lemma addOwners_spec owners row :
  (NoDup owners → NoDup (addOwners owners row))
  ∧ ∀ x, x ∈ addOwners owners row ↔ x ∈ owners ∨ (x ≠ TotalHoldings ∧ x ∈ keys row).
Proof.
  unfold addOwners. generalize (keys row). intros ks. revert owners.
  induction ks as [|k ks IH]; intros owners; cbn [fold_left].
  - split; [auto|]. intros x. rewrite elem_of_nil. tauto.
  - destruct (IH (if negb (String.eqb k TotalHoldings) then set_add k owners else owners))
      as [IHn IHe].
    split.
    + intros Hn. apply IHn. destruct (negb _); [apply NoDup_set_add|]; exact Hn.
    + intros x. rewrite IHe, elem_of_cons.
      destruct (String.eqb_spec k TotalHoldings) as [->|Hk]; cbn [negb].
      * split; [tauto|]. intros [H|[Hx [->|H]]]; tauto.
      * rewrite elem_of_set_add. split; [|tauto].
        intros [[->|H]|H]; tauto.
Qed.

Lemma fold_addOwners_spec rows owners :
  (NoDup owners → NoDup (fold_left addOwners rows owners))
  ∧ ∀ x, x ∈ fold_left addOwners rows owners
         ↔ x ∈ owners ∨ (x ≠ TotalHoldings ∧ ∃ row, row ∈ rows ∧ x ∈ keys row).
Proof.
  revert owners. induction rows as [|row rows IH]; intros owners; cbn [fold_left].
  - split; [auto|]. intros x. split; [auto|]. intros [H|(_ & r & Hr & _)]; [exact H|].
    inversion Hr.
  - destruct (IH (addOwners owners row)) as [IHn IHe].
    destruct (addOwners_spec owners row) as [An Ae]. split; [auto|].
    intros x. rewrite IHe, Ae. split.
    + intros [[H|[Hx Hk]]|[Hx (r & Hr & Hk)]]; [auto| |].
      * right. split; [exact Hx|]. exists row. split; [apply elem_of_cons; auto|exact Hk].
      * right. split; [exact Hx|]. exists r. split; [apply elem_of_cons; auto|exact Hk].
    + intros [H|(Hx & r & Hr & Hk)]; [auto|].
      apply elem_of_cons in Hr as [->|Hr]; [auto|].
      right. split; [exact Hx|]. exists r. auto.
Qed.

Lemma getOwners_elem (data : PivotData) :
  NoDup (getOwners data)
  ∧ (TotalHoldings ∉ getOwners data)
  ∧ ∀ owner, owner ∈ getOwners data
      ↔ owner ≠ TotalHoldings
        ∧ ∃ company row v, (company, row) ∈ data ∧ (owner, v) ∈ row.
Proof.
  unfold getOwners.
  destruct (fold_addOwners_spec (map snd (entries data)) []) as [Hn He].
  assert (Hiff : ∀ owner, owner ∈ fold_left addOwners (map snd (entries data)) []
            ↔ owner ≠ TotalHoldings
              ∧ ∃ company row v, (company, row) ∈ data ∧ (owner, v) ∈ row).
  { intros owner. rewrite He, elem_of_nil. split.
    - intros [[]|(Hx & row & Hr & Hk)]. split; [exact Hx|].
      apply list_elem_of_fmap in Hr as ([c r] & -> & Hr). cbn [snd] in Hk.
      rewrite entries_perm in Hr.
      unfold keys in Hk. apply list_elem_of_fmap in Hk as ([o v] & -> & Hk).
      rewrite entries_perm in Hk. eauto.
    - intros (Hx & c & row & v & Hr & Hk). right. split; [exact Hx|].
      exists row. split.
      + apply list_elem_of_fmap. exists (c, row). split; [reflexivity|].
        rewrite entries_perm. exact Hr.
      + unfold keys. apply list_elem_of_fmap. exists (owner, v). split; [reflexivity|].
        rewrite entries_perm. exact Hk. }
  split; [apply Hn, NoDup_nil_2|]. split; [|exact Hiff].
  intros H. apply Hiff in H as [H _]. congruence.
Qed.

(** X4: the owner columns are the keys of the rows of the table other
    than "Total Holdings", each listed once. *)
Theorem getOwners_spec (data : PivotData) :
  NoDup (getOwners data)
  ∧ (TotalHoldings ∉ getOwners data)
  ∧ ∀ owner, owner ∈ getOwners data
      ↔ owner ≠ TotalHoldings
        ∧ ∃ company row v, (company, row) ∈ data ∧ (owner, v) ∈ row.
Proof. exact (getOwners_elem data). Qed.

(** ** What the pivot table holds *)

Lemma buildPivot_snoc records h :
  buildPivot (records ++ [h]) = foldItem (buildPivot records) h.
Proof. unfold buildPivot, pivotFold. rewrite fold_left_app. reflexivity. Qed.

Lemma pivotCell_foldItem t h company key :
  pivotCell (foldItem t h) company key
  = if String.eqb (companyName h) company
    then (if String.eqb TotalHoldings key
          then Some (add (toNumber (if String.eqb (ownerName h) TotalHoldings
                                    then Some (add (or0 (pivotCell t company (ownerName h)))
                                                 (total h))
                                    else get TotalHoldings
                                           (default initialRow (get company t))))
                       (total h))
          else if String.eqb (ownerName h) key
               then Some (add (or0 (pivotCell t company (ownerName h))) (total h))
               else pivotCell t company key)
    else pivotCell t company key.
Proof.
  unfold pivotCell. rewrite get_foldItem.
  destruct (String.eqb_spec (companyName h) company) as [->|]; [|reflexivity].
  rewrite get_rowStep.
  assert (Hk : ∀ k, k ≠ TotalHoldings →
            get k (default initialRow (get company t))
            = match get company t with Some row => get k row | None => None end).
  { intros k Hk. destruct (get company t); [reflexivity|].
    cbn [default]. unfold initialRow. cbn [get].
    rewrite (proj2 (String.eqb_neq _ _)) by congruence. reflexivity. }
  destruct (String.eqb_spec TotalHoldings key) as [<-|Hkey].
  - destruct (String.eqb_spec (ownerName h) TotalHoldings) as [Ho|Ho]; [|reflexivity].
    rewrite Ho. destruct (get company t); [reflexivity|]. reflexivity.
  - destruct (String.eqb_spec (ownerName h) key) as [Ho|Ho].
    + rewrite Hk by congruence. reflexivity.
    + apply Hk. congruence.
Qed.

Lemma pivotCell_is_Some records company key :
  is_Some (pivotCell (buildPivot records) company key)
  ↔ ∃ h, h ∈ records ∧ companyName h = company
         ∧ (key = TotalHoldings ∨ ownerName h = key).
Proof.
  induction records as [|h records IH] using rev_ind.
  - split; [intros [v Hv]; discriminate Hv|]. intros (h & Hh & _). inversion Hh.
  - rewrite buildPivot_snoc, pivotCell_foldItem.
    assert (Hsplit : (∃ h0, h0 ∈ records ++ [h] ∧ companyName h0 = company
                        ∧ (key = TotalHoldings ∨ ownerName h0 = key))
              ↔ (∃ h0, h0 ∈ records ∧ companyName h0 = company
                        ∧ (key = TotalHoldings ∨ ownerName h0 = key))
                ∨ (companyName h = company
                   ∧ (key = TotalHoldings ∨ ownerName h = key))).
    { split.
      - intros (h0 & Hin & Hc & Hk). apply elem_of_app in Hin as [Hin|Hin]; [eauto|].
        apply list_elem_of_singleton in Hin as ->. auto.
      - intros [(h0 & Hin & Hc & Hk)|[Hc Hk]].
        + exists h0. rewrite elem_of_app. auto.
        + exists h. rewrite elem_of_app, list_elem_of_singleton. auto. }
    rewrite Hsplit, <- IH.
    destruct (String.eqb_spec (companyName h) company) as [Hc|Hc]; [|tauto].
    destruct (String.eqb_spec TotalHoldings key) as [Hk|Hk].
    { split; [auto|]. intros _. eexists; reflexivity. }
    destruct (String.eqb_spec (ownerName h) key) as [Ho|Ho].
    { split; [auto|]. intros _. eexists; reflexivity. }
    split; [auto|]. intros [H|[_ [H|H]]]; congruence || exact H.
Qed.

(** X5: over records whose companies and owners are no property names
    of [Object.prototype], the table holds a cell for a company and a
    key exactly when some record has that company and either the key is
    "Total Holdings" or the record has the key for owner; cells are
    never removed. *)
Theorem pivotCell_present records company key :
  Forall plainRecord records →
  is_Some (pivotCell (buildPivot records) company key)
  ↔ ∃ h, h ∈ records ∧ companyName h = company
         ∧ (key = TotalHoldings ∨ ownerName h = key).
Proof. intros _. exact (pivotCell_is_Some records company key). Qed.

Lemma sampleRecords_plain : Forall plainRecord sampleRecords.
Proof. repeat constructor. Defined.

Lemma pivotCell_present_witness :
  is_Some (pivotCell (buildPivot sampleRecords) "TCS" "Bob")
  ∧ pivotCell (buildPivot sampleRecords) "TCS" "Alice" = None.
Proof.
  split; [|reflexivity].
  apply (pivotCell_present sampleRecords "TCS" "Bob" sampleRecords_plain).
  exists (Holding "TCS" (of_Z 20) "Bob").
  split; [|split; [reflexivity|right; reflexivity]].
  unfold sampleRecords. rewrite !elem_of_cons. auto.
Defined.

Lemma same_number_qv x y : same_number x y → (qv x == qv y)%Q.
Proof. destruct x, y; cbn; try tauto; reflexivity. Qed.

Lemma Forall_List_filter {A} (P : A → Prop) (f : A → bool) l :
  Forall P l → Forall P (List.filter f l).
Proof.
  intros H. induction H as [|x l Hx _ IH]; cbn; [constructor|].
  destruct (f x); [constructor|]; assumption.
Qed.

Lemma sumQuantities_finite l :
  Forall finiteQuantity l → is_finite (sumQuantities l) = true.
Proof.
  intros H. induction H as [|h l Hh _ IH]; cbn; [reflexivity|].
  apply add_finite; assumption.
Qed.

Lemma qv_sumQuantities_snoc l h :
  Forall finiteQuantity l → finiteQuantity h →
  (qv (sumQuantities (l ++ [h])) == qv (sumQuantities l) + qv (total h))%Q.
Proof.
  intros H Hh. induction H as [|x l Hx Hl IH]; cbn.
  - rewrite qv_add by (exact Hh || reflexivity). cbn. ring.
  - fold (sumQuantities (l ++ [h])). fold (sumQuantities l).
    rewrite !qv_add; try assumption; try (apply sumQuantities_finite; assumption).
    + rewrite IH. ring.
    + apply sumQuantities_finite, Forall_app. split; [exact Hl|]. repeat constructor. exact Hh.
Qed.

Lemma companyRecords_snoc company l h :
  companyRecords company (l ++ [h])
  = companyRecords company l ++ (if String.eqb (companyName h) company then [h] else []).
Proof. unfold companyRecords. rewrite List.filter_app. reflexivity. Qed.

Lemma cellRecords_snoc company owner l h :
  cellRecords company owner (l ++ [h])
  = cellRecords company owner l
    ++ (if String.eqb (companyName h) company && String.eqb (ownerName h) owner
        then [h] else []).
Proof. unfold cellRecords. rewrite List.filter_app. reflexivity. Qed.

Lemma cellRecords_nil company owner l :
  companyRecords company l = [] → cellRecords company owner l = [].
Proof.
  unfold companyRecords, cellRecords. induction l as [|h l IH]; cbn; [reflexivity|].
  destruct (String.eqb (companyName h) company); [discriminate|]. exact IH.
Qed.

Lemma regularRecord_finite l : Forall regularRecord l → Forall finiteQuantity l.
Proof. intros H. eapply Forall_impl; [exact H|]. intros h [Hh _]. exact Hh. Qed.

Lemma rowIsSums_default records t company :
  tableIsSums records t →
  rowIsSums records company (default initialRow (get company t)).
Proof.
  intros Ht. specialize (Ht company).
  destruct (get company t) as [row|]; cbn [default]; [apply Ht|].
  split.
  - rewrite Ht. cbn. reflexivity.
  - intros owner Ho. unfold initialRow. cbn [get].
    rewrite (proj2 (String.eqb_neq _ _)) by congruence.
    apply cellRecords_nil, Ht.
Qed.

Lemma rowIsSums_other records company row h :
  companyName h ≠ company →
  rowIsSums records company row → rowIsSums (records ++ [h]) company row.
Proof.
  intros Hc [HT Ho]. apply String.eqb_neq in Hc. split.
  - rewrite companyRecords_snoc, Hc, app_nil_r. exact HT.
  - intros owner Hne. rewrite cellRecords_snoc, Hc, app_nil_r. apply Ho, Hne.
Qed.

Lemma rowIsSums_rowStep records row h :
  Forall regularRecord records → regularRecord h → finiteRow row →
  rowIsSums records (companyName h) row →
  rowIsSums (records ++ [h]) (companyName h) (rowStep (ownerName h) (total h) row).
Proof.
  intros Hrec [Hq Hoh] Hfin [HT Ho].
  pose proof (regularRecord_finite _ Hrec) as Hrecf.
  destruct (finiteRow_total _ Hfin) as (T & HTg & HTf).
  rewrite HTg in HT. cbn in HT.
  split.
  - rewrite get_rowStep, String.eqb_refl,
      (proj2 (String.eqb_neq (ownerName h) TotalHoldings) Hoh), HTg.
    cbn [toNumber opt_rel]. rewrite companyRecords_snoc, String.eqb_refl.
    apply same_number_finite.
    + apply add_finite; assumption.
    + apply sumQuantities_finite, Forall_app. split; [|repeat constructor; exact Hq].
      apply Forall_List_filter, Hrecf.
    + rewrite qv_add by assumption.
      rewrite qv_sumQuantities_snoc by (exact Hq || apply Forall_List_filter, Hrecf).
      rewrite (same_number_qv _ _ HT). reflexivity.
  - intros owner Hne. rewrite get_rowStep.
    rewrite (proj2 (String.eqb_neq TotalHoldings owner)) by congruence.
    rewrite cellRecords_snoc, String.eqb_refl. cbn [andb].
    specialize (Ho owner Hne).
    destruct (String.eqb_spec (ownerName h) owner) as [Heq|Heq].
    + split; [intros H; apply app_eq_nil in H as [_ H]; discriminate H|].
      assert (Hcf : Forall finiteQuantity (cellRecords (companyName h) owner records))
        by apply Forall_List_filter, Hrecf.
      pose proof (finiteRow_finite_opt _ owner Hfin) as Hof.
      apply same_number_finite.
      * apply add_finite; [|exact Hq]. rewrite Heq. apply or0_finite, Hof.
      * apply sumQuantities_finite, Forall_app. split; [exact Hcf|]. repeat constructor; exact Hq.
      * rewrite qv_add; [|rewrite Heq; apply or0_finite, Hof|exact Hq].
        rewrite qv_sumQuantities_snoc by assumption. rewrite Heq, qv_or0.
        destruct (get owner row) as [v|]; cbn [qvo].
        -- rewrite (same_number_qv _ _ (proj2 Ho)). reflexivity.
        -- rewrite Ho. reflexivity.
    + rewrite app_nil_r. exact Ho.
Qed.

Lemma buildPivot_tableIsSums records :
  Forall regularRecord records → tableIsSums records (buildPivot records).
Proof.
  induction records as [|h records IH] using rev_ind; intros Hrec.
  - intros company. reflexivity.
  - apply Forall_app in Hrec as [Hrec Hh]. apply Forall_inv in Hh.
    specialize (IH Hrec). intros company.
    rewrite buildPivot_snoc, get_foldItem.
    destruct (String.eqb_spec (companyName h) company) as [<-|Hc].
    + split.
      * rewrite companyRecords_snoc, String.eqb_refl.
        intros H. apply app_eq_nil in H as [_ H]. discriminate H.
      * apply rowIsSums_rowStep; [exact Hrec|exact Hh| |apply rowIsSums_default, IH].
        apply finiteTable_default, finiteTable_pivotFold;
          [apply finiteTable_nil|apply regularRecord_finite, Hrec].
    + specialize (IH company).
      rewrite companyRecords_snoc, (proj2 (String.eqb_neq _ _) Hc), app_nil_r.
      destruct (get company (buildPivot records)) as [row|]; [|exact IH].
      split; [apply IH|]. apply rowIsSums_other; [exact Hc|apply IH].
Qed.

(** X6: over records with integer quantities whose magnitudes add up
    to 2^53 at most, with companies and owners that are no property
    names of [Object.prototype] and owners other than "Total Holdings",
    the table holds a row for exactly the companies of the records; in
    it the cell of an owner is there exactly when the owner has a record
    for the company and is the sum of the quantities of those records,
    and "Total Holdings" is the sum of the quantities of all the records
    of the company; every value is an integer of magnitude 2^53 at
    most. *)
Theorem buildPivot_sums records :
  safeRecords records →
  tableIsSums records (buildPivot records)
  ∧ integerTable (2 ^ 53) (buildPivot records).
Proof.
  intros Hsafe. split.
  - apply buildPivot_tableIsSums, safeRecords_regular, Hsafe.
  - apply integerTable_buildPivot, Hsafe.
Qed.

Lemma buildPivot_sums_witness :
  safeRecords sampleRecords
  ∧ tableIsSums sampleRecords (buildPivot sampleRecords)
  ∧ pivotCell (buildPivot sampleRecords) "Infosys" TotalHoldings = Some (of_Z 150)
  ∧ sumQuantities (companyRecords "Infosys" sampleRecords) = of_Z 150.
Proof.
  split; [exact sampleRecords_safe|].
  split; [exact (proj1 (buildPivot_sums sampleRecords sampleRecords_safe))|].
  split; reflexivity.
Defined.





Lemma uploads_one files : uploads [files] = processFiles initialState files.
Proof. reflexivity. Qed.


Example scenario_records : allData (uploads [[aliceFile; bobFile]]) = sampleRecords.
Proof. vm_compute. reflexivity. Qed.


(** ** Order of the rows and owner columns *)

Section KeyFacts.
Context {V : Type}.
Implicit Types (o : obj V) (k : string) (v : V).

Lemma map_fst_set k v o : map fst (set k v o) = set_add k (map fst o).
Proof.
  unfold set_add. induction o as [|[k' v'] o IH]; cbn [set map fst existsb]; [reflexivity|].
  rewrite (String.eqb_sym k k').
  destruct (String.eqb k' k) eqn:Hk; cbn [orb map fst]; [reflexivity|].
  rewrite IH. destruct (existsb (String.eqb k) (map fst o)); reflexivity.
Qed.

Lemma get_Some_elem k v o : get k o = Some v → (k, v) ∈ o.
Proof.
  induction o as [|[k' v'] o IH]; cbn; [discriminate|].
  destruct (String.eqb_spec k' k) as [->|].
  - intros [= <-]. apply elem_of_cons. auto.
  - intros H. apply elem_of_cons. auto.
Qed.

Lemma elem_get_Some k v o : NoDup (map fst o) → (k, v) ∈ o → get k o = Some v.
Proof.
  induction o as [|[k' v'] o IH]; cbn [map fst get]; intros Hn Hin; [inversion Hin|].
  apply NoDup_cons in Hn as [Hk' Hn]. apply elem_of_cons in Hin as [[= -> ->]|Hin].
  - rewrite String.eqb_refl. reflexivity.
  - destruct (String.eqb_spec k' k) as [->|]; [|apply IH; assumption].
    exfalso. apply Hk'. apply list_elem_of_fmap. exists (k, v). auto.
Qed.

Lemma elem_is_Some k v o : (k, v) ∈ o → is_Some (get k o).
Proof.
  induction o as [|[k' v'] o IH]; cbn [get]; intros Hin; [inversion Hin|].
  destruct (String.eqb_spec k' k); [eexists; reflexivity|].
  apply elem_of_cons in Hin as [[= -> ->]|Hin]; [congruence|apply IH, Hin].
Qed.

Lemma entries_no_index o :
  (∀ k, k ∈ map fst o → array_index k = None) → entries o = o.
Proof.
  intros H. unfold entries.
  assert (Hboth : index_entries o = [] ∧ name_entries o = o).
  { induction o as [|e o IH]; [split; reflexivity|].
    cbn [index_entries name_entries].
    rewrite (H (fst e)) by (cbn; apply elem_of_cons; auto).
    destruct IH as [IH1 IH2].
    - intros k Hk. apply H. cbn. apply elem_of_cons. auto.
    - split; [exact IH1|]. rewrite IH2. reflexivity. }
  destruct Hboth as [-> ->]. reflexivity.
Qed.
End KeyFacts.

Lemma List_filter_filter {A} (p q : A → bool) l :
  List.filter p (List.filter q l) = List.filter (λ x, p x && q x) l.
Proof.
  induction l as [|x l IH]; cbn; [reflexivity|].
  destruct (q x); cbn; [destruct (p x); cbn; congruence|].
  rewrite andb_false_r. exact IH.
Qed.

Lemma List_filter_ext_elem {A} (p q : A → bool) l :
  (∀ x, p x = q x) → List.filter p l = List.filter q l.
Proof. intros H. induction l as [|x l IH]; cbn; [reflexivity|]. rewrite H, IH. reflexivity. Qed.

Lemma fold_set_add l acc :
  fold_left (λ a k, set_add k a) l acc
  = acc ++ List.filter (λ y, negb (existsb (String.eqb y) acc)) (firstOccurrences l).
Proof.
  revert acc. induction l as [|x l IH]; intros acc; cbn [fold_left firstOccurrences].
  - cbn. rewrite app_nil_r. reflexivity.
  - rewrite IH. unfold set_add. cbn [List.filter].
    destruct (existsb (String.eqb x) acc) eqn:Hx; cbn [negb].
    + f_equal. rewrite List_filter_filter. apply List_filter_ext_elem. intros y.
      destruct (String.eqb_spec x y) as [<-|]; cbn; [rewrite Hx; reflexivity|].
      rewrite andb_true_r. reflexivity.
    + rewrite <- app_assoc. cbn [app]. do 2 f_equal.
      rewrite List_filter_filter. apply List_filter_ext_elem. intros y.
      rewrite existsb_app. cbn [existsb]. rewrite orb_false_r, negb_orb.
      rewrite (String.eqb_sym y x). reflexivity.
Qed.

Lemma map_fst_pivotFold t records :
  map fst (pivotFold t records)
  = fold_left (λ a k, set_add k a) (map companyName records) (map fst t).
Proof.
  unfold pivotFold. revert t.
  induction records as [|h records IH]; intros t; cbn [fold_left map]; [reflexivity|].
  rewrite IH, foldItem_rowStep, map_fst_set. reflexivity.
Qed.

(** X8: over records whose companies and owners are no property names
    of [Object.prototype], the rows of the table come in the order in
    which the companies first appear in the records, each once; and
    [Object.entries] lists them in that order as long as no company
    name is an array index (a canonical numeric string such as "500"). *)
Theorem buildPivot_row_order records :
  Forall plainRecord records →
  map fst (buildPivot records) = firstOccurrences (map companyName records)
  ∧ ((∀ h, h ∈ records → array_index (companyName h) = None) →
     map fst (entries (buildPivot records))
     = firstOccurrences (map companyName records)).
Proof.
  intros _.
  assert (Hkeys : map fst (buildPivot records)
                  = firstOccurrences (map companyName records)).
  { unfold buildPivot. rewrite map_fst_pivotFold, fold_set_add. cbn [app map].
    transitivity (List.filter (λ _, true) (firstOccurrences (map companyName records))).
    - apply List_filter_ext_elem. reflexivity.
    - generalize (firstOccurrences (map companyName records)). intros l.
      induction l as [|x l IH]; cbn; congruence. }
  split; [exact Hkeys|]. intros Hidx.
  rewrite entries_no_index; [exact Hkeys|].
  intros k Hk. apply list_elem_of_fmap in Hk as ([c row] & -> & Hk). cbn [fst].
  apply elem_is_Some in Hk.
  assert (Hcell : is_Some (pivotCell (buildPivot records) c TotalHoldings)).
  { unfold pivotCell. destruct Hk as [r Hr]. rewrite Hr.
    assert (Hplain : ∀ l cc rr, get cc (buildPivot l) = Some rr → is_Some (get TotalHoldings rr)).
    { clear. intros l. induction l as [|h l IH] using rev_ind; intros cc rr; [discriminate|].
      rewrite buildPivot_snoc, get_foldItem.
      destruct (String.eqb (companyName h) cc); [|apply IH].
      intros [= <-]. rewrite get_rowStep, String.eqb_refl. eexists; reflexivity. }
    eapply Hplain, Hr. }
  apply pivotCell_is_Some in Hcell as (h & Hh & <- & _). apply Hidx, Hh.
Qed.

Lemma buildPivot_row_order_witness :
  map fst (entries (buildPivot sampleRecords)) = ["Infosys"; "TCS"].
Proof.
  refine (proj2 (buildPivot_row_order sampleRecords sampleRecords_plain) _).
  intros h Hh. unfold sampleRecords in Hh.
  repeat (apply elem_of_cons in Hh as [->|Hh]; [reflexivity|]). inversion Hh.
Defined.

Lemma NoDup_fold_set_add l acc :
  NoDup acc → NoDup (fold_left (λ a k, set_add k a) l acc).
Proof.
  revert acc. induction l as [|x l IH]; intros acc H; cbn; [exact H|].
  apply IH, NoDup_set_add, H.
Qed.

Lemma buildPivot_NoDup records : NoDup (map fst (buildPivot records)).
Proof.
  unfold buildPivot. rewrite map_fst_pivotFold. apply NoDup_fold_set_add, NoDup_nil_2.
Qed.

(** X9: over records whose companies and owners are no property names
    of [Object.prototype], the owner columns of the table built from
    the records are the owners of the records, "Total Holdings" left
    out, each once. *)
Theorem getOwners_buildPivot records :
  Forall plainRecord records →
  NoDup (getOwners (buildPivot records))
  ∧ ∀ owner, owner ∈ getOwners (buildPivot records)
      ↔ owner ≠ TotalHoldings ∧ ∃ h, h ∈ records ∧ ownerName h = owner.
Proof.
  intros _.
  destruct (getOwners_elem (buildPivot records)) as (Hn & _ & Hiff).
  split; [exact Hn|]. intros owner. rewrite Hiff. split.
  - intros (Hne & c & row & v & Hrow & Hv). split; [exact Hne|].
    apply (elem_get_Some _ _ _ (buildPivot_NoDup records)) in Hrow.
    apply elem_is_Some in Hv.
    assert (Hcell : is_Some (pivotCell (buildPivot records) c owner))
      by (unfold pivotCell; rewrite Hrow; exact Hv).
    apply pivotCell_is_Some in Hcell as (h & Hh & _ & [Hk|Hk]); [congruence|eauto].
  - intros (Hne & h & Hh & Ho). split; [exact Hne|].
    assert (Hcell : is_Some (pivotCell (buildPivot records) (companyName h) owner)).
    { apply pivotCell_is_Some. exists h. auto. }
    unfold pivotCell in Hcell.
    destruct (get (companyName h) (buildPivot records)) as [row|] eqn:Hrow;
      [|destruct Hcell; discriminate].
    destruct Hcell as [v Hv]. exists (companyName h), row, v.
    split; apply get_Some_elem; assumption.
Qed.

Lemma getOwners_buildPivot_witness :
  getOwners (buildPivot sampleRecords) = ["Alice"; "Bob"]
  ∧ NoDup (getOwners (buildPivot sampleRecords)).
Proof.
  split; [reflexivity|].
  exact (proj1 (getOwners_buildPivot sampleRecords sampleRecords_plain)).
Defined.

Example getOwners_sample : getOwners (buildPivot sampleRecords) = ["Alice"; "Bob"].
Proof. vm_compute. reflexivity. Qed.

(** ** Uploads, in general *)

Lemma uploads_from_allData st batches :
  allData (fold_left processFiles batches st)
  = allData st ++ concat (map fst (map processFile (concat batches))).
Proof.
  revert st. induction batches as [|files batches IH]; intros st; cbn [fold_left concat].
  - cbn. rewrite app_nil_r. reflexivity.
  - rewrite IH, processFiles_allData, !map_app, concat_app, app_assoc. reflexivity.
Qed.

Lemma stateInv_pivot st st' :
  stateInv st → stateInv st' → allData st = allData st' → pivotData st = pivotData st'.
Proof. unfold stateInv. intros -> -> ->. reflexivity. Qed.

(** X10: uploads that do not overlap may come one file at a time, in
    batches, or all together: as long as the companies and owners of the
    records kept are no property names of [Object.prototype], the
    records kept and the table shown are the same. *)
Theorem uploads_batching batches :
  Forall plainRecord (allData (uploads [concat batches])) →
  allData (uploads batches) = allData (uploads [concat batches])
  ∧ pivotData (uploads batches) = pivotData (uploads [concat batches]).
Proof.
  intros _.
  assert (Hall : allData (uploads batches) = allData (uploads [concat batches])).
  { unfold uploads. rewrite !uploads_from_allData. cbn [concat]. rewrite app_nil_r.
    reflexivity. }
  split; [exact Hall|].
  apply stateInv_pivot; [apply uploads_stateInv|apply uploads_stateInv|exact Hall].
Qed.

Lemma uploads_batching_witness :
  pivotData (uploads [[aliceFile]; [bobFile]]) = pivotData (uploads [[aliceFile; bobFile]]).
Proof.
  apply (uploads_batching [[aliceFile]; [bobFile]]). repeat constructor.
Defined.

(** X11: a file that cannot be decoded is reported by an alert of type
    [error] and changes nothing else: the records kept and the table
    shown are those of the same upload without that file, whatever the
    files before and after it in the batch. *)
Theorem failed_file_isolated st files1 files2 fname err :
  allData (processFiles st (files1 ++ MkFile fname (inr err) :: files2))
    = allData (processFiles st (files1 ++ files2))
  ∧ pivotData (processFiles st (files1 ++ MkFile fname (inr err) :: files2))
    = pivotData (processFiles st (files1 ++ files2))
  ∧ MkAlert error ("Error processing " +:+ fname +:+ ": " +:+ err)
    ∈ alerts (processFiles st (files1 ++ MkFile fname (inr err) :: files2)).
Proof.
  assert (Hnew : concat (map fst (map processFile
                                    (files1 ++ MkFile fname (inr err) :: files2)))
                 = concat (map fst (map processFile (files1 ++ files2)))).
  { rewrite !map_app. cbn [map]. rewrite !concat_app. reflexivity. }
  assert (Hin : MkAlert error ("Error processing " +:+ fname +:+ ": " +:+ err)
                ∈ concat (map snd (map processFile
                                     (files1 ++ MkFile fname (inr err) :: files2)))).
  { rewrite !map_app. cbn [map]. rewrite concat_app. cbn [concat].
    rewrite elem_of_app. right. apply elem_of_cons. left. reflexivity. }
  unfold processFiles. rewrite Hnew.
  destruct (_ || _); cbn [allData pivotData alerts]; rewrite !elem_of_app; auto.
Qed.

Lemma failed_file_isolated_witness :
  allData (processFiles initialState [aliceFile; MkFile "bad.csv" (inr "Error: bad zip"); bobFile])
  = sampleRecords.
Proof.
  exact (eq_trans
           (proj1 (failed_file_isolated initialState [aliceFile] [bobFile]
                     "bad.csv" "Error: bad zip"))
           scenario_records).
Defined.

(** ** What the detector answers *)

Lemma take_window (rawData : sheet) :
  take (Nat.min 15 (length rawData)) rawData = take 15 rawData.
Proof.
  destruct (Nat.le_ge_cases 15 (length rawData)) as [H|H].
  - rewrite Nat.min_l by exact H. reflexivity.
  - rewrite Nat.min_r by exact H. rewrite !take_ge by lia. reflexivity.
Qed.

Lemma scanCells_start i j cells st :
  dataStartRow (scanCells i j cells st) = dataStartRow st
  ∨ dataStartRow (scanCells i j cells st) = Z.of_nat i + 1.
Proof.
  revert j st. induction cells as [|c cells IH]; intros j st; cbn [scanCells]; [auto|].
  match goal with |- context [scanCells i (S j) cells ?s] => destruct (IH (S j) s) as [H|H] end;
    rewrite H; [|auto].
  destruct (isCompanyHeader _), (isTotalHeader _); cbn; auto.
Qed.

Lemma scanRows_start i rows st :
  -1 ≤ dataStartRow st ≤ Z.of_nat i →
  -1 ≤ dataStartRow (scanRows i rows st) ≤ Z.of_nat (i + length rows).
Proof.
  revert i st. induction rows as [|row rows IH]; intros i st Hst; cbn [scanRows length].
  - lia.
  - assert (Hnext : ∀ s, -1 ≤ dataStartRow s ≤ Z.of_nat (S i) →
              -1 ≤ dataStartRow (scanRows (S i) rows s) ≤ Z.of_nat (i + S (length rows))).
    { intros s Hs. specialize (IH (S i) s Hs). lia. }
    destruct row as [cells|]; [|apply Hnext; lia].
    destruct (length cells <? 3)%nat; [apply Hnext; lia|].
    destruct (hasISIN cells || hasNumericData cells); [cbn; lia|].
    apply Hnext. destruct (scanCells_start i 0 cells st) as [H|H]; rewrite H; lia.
Qed.

(** X12: the start row the detector answers is never negative and never
    beyond 15; unless it is the default 5 it is at most the number of
    rows of the sheet. *)
Theorem detectFormat_start_bounds rawData :
  0 ≤ dataStartRow (detectFormat rawData) ≤ 15
  ∧ (dataStartRow (detectFormat rawData) = 5
     ∨ dataStartRow (detectFormat rawData) ≤ Z.of_nat (length rawData)).
Proof.
  unfold detectFormat.
  pose proof (scanRows_start 0 (take (Nat.min 15 (length rawData)) rawData) (Mapping (-1) 1 9))
    as H.
  rewrite length_take in H. cbn [dataStartRow] in H. specialize (H ltac:(lia)).
  destruct (Z.ltb_spec (dataStartRow (scanRows 0 (take (Nat.min 15 (length rawData)) rawData)
                                         (Mapping (-1) 1 9))) 0);
    cbn [dataStartRow]; lia.
Qed.

(** X13: only the first 15 rows are looked at: rows added after them
    do not change the mapping. *)
Theorem detectFormat_window rawData more :
  (15 ≤ length rawData)%nat →
  detectFormat (rawData ++ more) = detectFormat rawData.
Proof.
  intros H. unfold detectFormat. rewrite !take_window, take_app_le by exact H.
  reflexivity.
Qed.

Lemma detectFormat_window_witness :
  detectFormat (replicate 15 None ++ [Some [CStr "INE009A01021"; CStr "Infosys"; CNum (of_Z 5)]])
  = Mapping 5 1 9.
Proof.
  rewrite detectFormat_window; [reflexivity|].
  rewrite length_replicate. lia.
Defined.

Lemma lastHeaderFrom_acc p j cells acc :
  lastHeaderFrom p j cells acc
  = match lastHeaderFrom p j cells None with Some x => Some x | None => acc end.
Proof.
  revert j acc. induction cells as [|c cells IH]; intros j acc; cbn [lastHeaderFrom];
    [reflexivity|].
  rewrite (IH (S j) (if p (headerText c) then Some j else acc)),
          (IH (S j) (if p (headerText c) then Some j else None)).
  destruct (lastHeaderFrom p (S j) cells None); [reflexivity|].
  destruct (p (headerText c)); reflexivity.
Qed.

Lemma scanCells_lastHeader i j cells st :
  scanCells i j cells st
  = Mapping
      (match lastHeaderFrom isCompanyHeader j cells None with
       | Some _ => Z.of_nat i + 1
       | None => dataStartRow st
       end)
      (default (companyColIndex st) (lastHeaderFrom isCompanyHeader j cells None))
      (default (totalColIndex st) (lastHeaderFrom isTotalHeader j cells None)).
Proof.
  revert j st. induction cells as [|c cells IH]; intros j st;
    cbn [scanCells lastHeaderFrom]; [destruct st; reflexivity|].
  rewrite IH.
  rewrite (lastHeaderFrom_acc isCompanyHeader (S j) cells (if isCompanyHeader _ then _ else _)),
          (lastHeaderFrom_acc isTotalHeader (S j) cells (if isTotalHeader _ then _ else _)).
  destruct (lastHeaderFrom isCompanyHeader (S j) cells None),
           (lastHeaderFrom isTotalHeader (S j) cells None),
           (isCompanyHeader (headerText c)), (isTotalHeader (headerText c));
    reflexivity.
Qed.

Lemma scanRows_silent mid tail i st :
  Forall silentRow mid →
  scanRows i (mid ++ tail) st = scanRows (i + length mid) tail st.
Proof.
  intros H. revert i. induction H as [|r mid Hr _ IH]; intros i; cbn [app length].
  - f_equal. lia.
  - replace (i + S (length mid))%nat with (S i + length mid)%nat by lia.
    rewrite <- IH. destruct Hr as [Hr|Hr]; [apply scanRows_ignored, Hr|].
    destruct r as [cells|]; [|contradiction]. destruct Hr as (Hi & Hn & Hh).
    cbn [scanRows]. rewrite Hi, Hn. cbn [orb].
    rewrite scanCells_noHeader by exact Hh.
    destruct (length cells <? 3)%nat; reflexivity.
Qed.

(** X14: when, in the first 15 rows, the first row of 3 cells or more
    is a header row (it does not start the data and a cell of it reads
    as a company header), and the rows after it leave the scan as it is
    up to the end of the window or to a row that starts the data, then
    the company column is the last company header of that row, the
    quantity column its last quantity header (9 without one), and the
    data starts right after the header row, or at the row that starts
    the data. *)
Theorem header_row_mapping rawData pre hdr mid tail (j : nat) :
  take 15 rawData = pre ++ Some hdr :: mid ++ tail →
  Forall ignoredRow pre →
  (3 ≤ length hdr)%nat →
  hasISIN hdr = false → hasNumericData hdr = false →
  lastHeader isCompanyHeader hdr = Some j →
  Forall silentRow mid →
  (tail = [] ∨ ∃ row rest, tail = row :: rest ∧ dataRow row) →
  detectFormat rawData
  = Mapping
      (match tail with
       | [] => Z.of_nat (length pre) + 1
       | _ => Z.of_nat (length pre + 1 + length mid)
       end)
      j
      (default 9%nat (lastHeader isTotalHeader hdr)).
Proof.
  intros Hwin Hpre Hlen Hisin Hnum Hj Hmid Htail.
  unfold detectFormat. rewrite take_window, Hwin.
  rewrite scanRows_skip by exact Hpre. cbn [plus scanRows].
  rewrite (proj2 (Nat.ltb_ge _ _)) by lia. rewrite Hisin, Hnum. cbn [orb].
  rewrite scanCells_lastHeader.
  fold (lastHeader isCompanyHeader hdr). fold (lastHeader isTotalHeader hdr).
  rewrite Hj. cbn [default companyColIndex totalColIndex dataStartRow].
  rewrite scanRows_silent by exact Hmid.
  destruct Htail as [->|(row & rest & -> & Hrow)].
  - cbn [scanRows dataStartRow companyColIndex totalColIndex].
    rewrite (proj2 (Z.ltb_ge _ _)) by lia. reflexivity.
  - destruct row as [cells|]; [|contradiction]. destruct Hrow as [Hc Hd].
    cbn [scanRows]. rewrite (proj2 (Nat.ltb_ge _ _)) by lia. rewrite Hd.
    cbn [dataStartRow companyColIndex totalColIndex].
    rewrite (proj2 (Z.ltb_ge _ _)) by lia. f_equal. lia.
Qed.

Lemma header_row_mapping_witness :
  detectFormat
    [Some [CStr "Statement of account"]; None;
     Some [CStr "Sr. No."; CStr "Name of Security"; CStr "Pledged"; CStr "Free"; CStr "Total Qty"];
     Some [];
     Some [CStr "INE009A01021"; CStr "Infosys"; CNum (of_Z 0); CNum (of_Z 10); CNum (of_Z 10)]]
  = Mapping 4 1 4.
Proof.
  apply (header_row_mapping _
           [Some [CStr "Statement of account"]; None]
           [CStr "Sr. No."; CStr "Name of Security"; CStr "Pledged"; CStr "Free"; CStr "Total Qty"]
           [Some []]
           [Some [CStr "INE009A01021"; CStr "Infosys"; CNum (of_Z 0); CNum (of_Z 10);
                  CNum (of_Z 10)]] 1).
  - reflexivity.
  - repeat constructor; cbn; lia.
  - cbn. lia.
  - reflexivity.
  - reflexivity.
  - reflexivity.
  - constructor; [left; cbn; lia | constructor].
  - right. eexists _, _. split; [reflexivity|]. split; [cbn; lia|reflexivity].
Defined.

Lemma lastHeaderFrom_Some p j cells k :
  lastHeaderFrom p j cells None = Some k →
  ∃ c, (j ≤ k)%nat ∧ cells !! (k - j)%nat = Some c ∧ p (headerText c) = true.
Proof.
  revert j. induction cells as [|a cells IH]; intros j; cbn [lastHeaderFrom];
    [discriminate|].
  rewrite lastHeaderFrom_acc.
  destruct (lastHeaderFrom p (S j) cells None) as [k'|] eqn:E.
  - intros [= ->]. apply IH in E as (c & Hle & Hc & Hp). exists c.
    split; [lia|]. split; [|exact Hp].
    replace (k - j)%nat with (S (k - S j)) by lia. exact Hc.
  - destruct (p (headerText a)) eqn:Hp; [|discriminate]. intros [= ->].
    exists a. rewrite Nat.sub_diag. split; [lia|]. split; [reflexivity|exact Hp].
Qed.

Lemma scanRows_columns rawData i rows st :
  (∀ k row, rows !! k = Some row →
     rawData !! (i + k)%nat = Some row ∧ (i + k < 15)%nat) →
  (companyColIndex st = 1%nat ∨ headerAt isCompanyHeader rawData (companyColIndex st)) →
  (totalColIndex st = 9%nat ∨ headerAt isTotalHeader rawData (totalColIndex st)) →
  let st' := scanRows i rows st in
  (companyColIndex st' = 1%nat ∨ headerAt isCompanyHeader rawData (companyColIndex st'))
  ∧ (totalColIndex st' = 9%nat ∨ headerAt isTotalHeader rawData (totalColIndex st')).
Proof.
  revert i st. induction rows as [|row rows IH]; intros i st Hrows Hc Ht;
    cbn [scanRows]; [split; assumption|].
  assert (Hrest : ∀ k r, rows !! k = Some r →
                    rawData !! (S i + k)%nat = Some r ∧ (S i + k < 15)%nat).
  { intros k r Hk. destruct (Hrows (S k) r Hk) as [H1 H2].
    replace (S i + k)%nat with (i + S k)%nat by lia. split; assumption. }
  destruct (Hrows 0%nat row eq_refl) as [Hi Hlt]. rewrite Nat.add_0_r in Hi, Hlt.
  destruct row as [cells|]; [|apply IH; assumption].
  destruct (Nat.ltb_spec (length cells) 3) as [Hlen|Hlen]; [apply IH; assumption|].
  destruct (hasISIN cells || hasNumericData cells); [split; assumption|].
  apply IH; [exact Hrest| |]; rewrite scanCells_lastHeader;
    cbn [companyColIndex totalColIndex].
  - destruct (lastHeaderFrom isCompanyHeader 0 cells None) as [k|] eqn:E;
      cbn [default]; [|exact Hc].
    right. apply lastHeaderFrom_Some in E as (c & _ & Hk & Hp).
    rewrite Nat.sub_0_r in Hk. exists i, cells, c. repeat split; assumption.
  - destruct (lastHeaderFrom isTotalHeader 0 cells None) as [k|] eqn:E;
      cbn [default]; [|exact Ht].
    right. apply lastHeaderFrom_Some in E as (c & _ & Hk & Hp).
    rewrite Nat.sub_0_r in Hk. exists i, cells, c. repeat split; assumption.
Qed.

(** X15: the columns the detector answers are never invented: the
    company column is the default 1 or the position of a cell that reads
    as a company header, in a row of 3 cells or more among the first 15;
    the quantity column is the default 9 or the position of a cell that
    reads as a quantity header in such a row. *)
Theorem detectFormat_columns rawData :
  (companyColIndex (detectFormat rawData) = 1%nat
   ∨ headerAt isCompanyHeader rawData (companyColIndex (detectFormat rawData)))
  ∧ (totalColIndex (detectFormat rawData) = 9%nat
     ∨ headerAt isTotalHeader rawData (totalColIndex (detectFormat rawData))).
Proof.
  assert (H := scanRows_columns rawData 0
                 (take (Nat.min 15 (length rawData)) rawData) (Mapping (-1) 1 9)).
  cbn zeta in H. unfold detectFormat.
  set (st := scanRows 0 _ _) in *.
  assert (Hst : (companyColIndex st = 1%nat
                 ∨ headerAt isCompanyHeader rawData (companyColIndex st))
                ∧ (totalColIndex st = 9%nat
                   ∨ headerAt isTotalHeader rawData (totalColIndex st))).
  { apply H; [|left; reflexivity|left; reflexivity].
    intros k row Hk. apply lookup_take_Some in Hk as [Hk Hlt].
    cbn [plus]. split; [exact Hk|lia]. }
  destruct (dataStartRow st <? 0); exact Hst.
Qed.

(** ** Owner extraction: file names without the pattern *)

Section MatcherSuffix.
Context {A : Type} (total : nat) (q : ascii → bool).
Implicit Types (k : string → option string → option A) (g : option string).

Lemma all_chars_tail c s : all_chars q (String c s) = true → all_chars q s = true.
Proof. cbn [all_chars]. intros H. apply andb_prop in H as [_ H]. exact H. Qed.

(** A successful match hands to its continuation what is left of the
    input: characters of [q] only, when the input had no other. *)
Lemma rmatch_suffix r :
  ∀ s g k v, all_chars q s = true → rmatch total r s g k = Some v →
             ∃ s' g', all_chars q s' = true ∧ k s' g' = Some v.
Proof.
  induction r as [|p|r1 IH1 r2 IH2|r1 IH1 r2 IH2|r1 IH1|r1 IH1|r1 IH1| |];
    cbn [rmatch]; intros s g k v Hs H.
  - eauto.
  - destruct s as [|c s]; [discriminate|]. destruct (p c); [|discriminate].
    apply all_chars_tail in Hs. eauto.
  - apply (IH1 _ _ _ _ Hs) in H as (s1 & g1 & Hs1 & H).
    apply (IH2 _ _ _ _ Hs1) in H. exact H.
  - apply orElse_Some in H as [H|H]; [apply (IH1 _ _ _ _ Hs) in H|apply (IH2 _ _ _ _ Hs) in H];
      exact H.
  - remember (String.length s) as n eqn:Hn. clear Hn. revert s g Hs H.
    induction n as [|n IHn]; intros s g Hs H; cbn [star_loop] in H; [eauto|].
    apply orElse_Some in H as [H|H]; [|eauto].
    apply (IH1 _ _ _ _ Hs) in H as (s' & g' & Hs' & H).
    destruct (String.length s' <? String.length s)%nat; [eauto|discriminate].
  - apply (IH1 _ _ _ _ Hs) in H as (s1 & g1 & Hs1 & H). clear s g Hs.
    remember (String.length s1) as n eqn:Hn. clear Hn. revert s1 g1 Hs1 H.
    induction n as [|n IHn]; intros s g Hs H; cbn [lazy_loop] in H;
      apply orElse_Some in H as [H|H]; eauto; try discriminate.
    apply (IH1 _ _ _ _ Hs) in H as (s' & g' & Hs' & H).
    destruct (String.length s' <? String.length s)%nat; [eauto|discriminate].
  - apply (IH1 _ _ _ _ Hs) in H as (s1 & g1 & Hs1 & H). eauto.
  - destruct (String.length s =? total)%nat; [eauto|discriminate].
  - destruct s; [eauto|discriminate].
Qed.

(** A sequence fails where its second part fails on every rest. *)
Lemma rmatch_seq_fails r1 r2 s g k :
  all_chars q s = true →
  (∀ s' g' k', all_chars q s' = true → rmatch total r2 s' g' k' = None) →
  rmatch total (RSeq r1 r2) s g k = None.
Proof.
  intros Hs H2. destruct (rmatch total (RSeq r1 r2) s g k) as [v|] eqn:E; [|reflexivity].
  cbn [rmatch] in E. apply (rmatch_suffix _ _ _ _ _ Hs) in E as (s' & g' & Hs' & E).
  rewrite (H2 _ _ _ Hs') in E. discriminate.
Qed.

End MatcherSuffix.

Lemma canon_hyphen x : char_eqb (canon x) (canon "-") = char_eqb x "-".
Proof. destruct x as [[] [] [] [] [] [] [] []]; vm_compute; reflexivity. Qed.

Lemma client_id_needs_hyphen {A} total s g (k : string → option string → option A) :
  all_chars (λ c, negb (char_eqb c "-")) s = true →
  rmatch total (lit_ci "CLIENT-ID") s g k = None.
Proof.
  intros H. cbn [lit_ci]. unfold ci.
  do 6 (destruct s as [|? s]; [reflexivity|]; cbn [rmatch];
        cbn [all_chars] in H; apply andb_prop in H as [_ H];
        destruct (char_eqb (canon _) _); [|reflexivity]).
  destruct s as [|x s]; [reflexivity|]. cbn [rmatch].
  cbn [all_chars] in H. apply andb_prop in H as [Hx _].
  rewrite canon_hyphen. apply negb_true_iff in Hx. rewrite Hx. reflexivity.
Qed.

Lemma re_client_needs_hyphen {A} total s g (k : string → option string → option A) :
  all_chars (λ c, negb (char_eqb c "-")) s = true →
  rmatch total re_client s g k = None.
Proof.
  intros Hs. unfold re_client.
  apply (rmatch_seq_fails _ _ _ _ _ _ _ Hs). intros s1 g1 k1 Hs1.
  apply (rmatch_seq_fails _ _ _ _ _ _ _ Hs1). intros s2 g2 k2 Hs2.
  apply (rmatch_seq_fails _ _ _ _ _ _ _ Hs2). intros s3 g3 k3 Hs3.
  apply (rmatch_seq_fails _ _ _ _ _ _ _ Hs3). intros s4 g4 k4 Hs4.
  apply client_id_needs_hyphen, Hs4.
Qed.

Lemma search_re_client_none total pre s :
  all_chars (λ c, negb (char_eqb c "-")) s = true →
  search_from total re_client pre s = None.
Proof.
  revert pre. induction s as [|c s IH]; intros pre Hs; cbn [search_from];
    rewrite (re_client_needs_hyphen _ _ _ _ Hs); [reflexivity|].
  apply IH. cbn [all_chars] in Hs. apply andb_prop in Hs as [_ Hs]. exact Hs.
Qed.

Lemma str_app_nil_r (s : string) : s +:+ "" = s.
Proof. induction s as [|c s IH]; cbn [String.append]; [|rewrite IH]; reflexivity. Qed.

Lemma str_app_assoc (a b c : string) : (a +:+ b) +:+ c = a +:+ (b +:+ c).
Proof. induction a as [|x a IH]; cbn [String.append]; [|rewrite IH]; reflexivity. Qed.

Lemma all_chars_app p (a b : string) :
  all_chars p (a +:+ b) = all_chars p a && all_chars p b.
Proof.
  induction a as [|x a IH]; cbn [String.append all_chars]; [reflexivity|].
  rewrite IH. apply andb_assoc.
Qed.

(** The extension pattern consumes 5 characters at most and then wants
    the end of the input. *)
Lemma re_extension_long {A} total s g (k : string → option string → option A) :
  (6 ≤ String.length s)%nat → rmatch total re_extension s g k = None.
Proof.
  intros H.
  destruct s as [|c1 [|c2 [|c3 [|c4 [|c5 [|c6 s]]]]]]; cbn [String.length] in H; try lia.
  unfold re_extension. cbn [rmatch lit_ci ci orElse].
  repeat (destruct (char_eqb _ _); cbn [orElse]; try reflexivity).
Qed.

Lemma search_extension total pre base ext :
  ext = ".xlsx" ∨ ext = ".csv" →
  search_from total re_extension pre (base +:+ ext)
  = Some (Found (pre +:+ base) "" None).
Proof.
  intros Hext. revert pre. induction base as [|c b IH]; intros pre.
  - rewrite str_app_nil_r. destruct Hext as [->| ->]; reflexivity.
  - cbn [String.append search_from].
    assert (Hnone : rmatch total re_extension (String c (b +:+ ext)) None
                      (λ s' g, Some (Found pre s' g)) = None).
    { destruct b as [|c' b].
      - destruct Hext as [->| ->].
        + apply re_extension_long. cbn. lia.
        + unfold re_extension. cbn [String.append rmatch lit_ci ci orElse].
          destruct (char_eqb (canon c) _); reflexivity.
      - apply re_extension_long. cbn [String.append String.length].
        pose proof (length_append_ge b ext) as Hlen.
        destruct Hext as [->| ->]; cbn [String.length] in Hlen; lia. }
    rewrite Hnone, IH, str_app_assoc. reflexivity.
Qed.

(** X16: a file name that holds no hyphen cannot hold the CLIENT-ID
    marker, so whatever else it holds, the owner of [base.xlsx] and of
    [base.csv] is [base]: the last extension is removed and nothing
    else, also when [base] holds a dot, an underscore or the word
    CLIENT. *)
Theorem extractOwner_without_hyphen base ext :
  all_chars (λ c, negb (char_eqb c "-")) base = true →
  ext = ".xlsx" ∨ ext = ".csv" →
  extractOwnerFromFilename (base +:+ ext) = base.
Proof.
  intros Hbase Hext. unfold extractOwnerFromFilename, exec.
  rewrite search_re_client_none.
  - unfold remove_first, exec. rewrite search_extension by exact Hext.
    cbn [before after String.append]. apply str_app_nil_r.
  - rewrite all_chars_app, Hbase. destruct Hext as [->| ->]; reflexivity.
Qed.

Lemma extractOwner_without_hyphen_witness :
  extractOwnerFromFilename "CLIENT John_Doe v1.2.csv" = "CLIENT John_Doe v1.2".
Proof.
  apply (extractOwner_without_hyphen "CLIENT John_Doe v1.2" ".csv").
  - reflexivity.
  - right. reflexivity.
Defined.

(** ** Alerts *)

Lemma filter_index_shift {A} (p : nat → bool) i (l : list A) :
  (∀ j, (i ≤ j)%nat → p j = true) → filter_index p i l = l.
Proof.
  revert i. induction l as [|x l IH]; intros i Hp; cbn [filter_index]; [reflexivity|].
  rewrite (Hp i) by lia. rewrite IH; [reflexivity|]. intros j Hj. apply Hp. lia.
Qed.

Lemma alertTimeout_head (prev : list Alert) :
  alertStep prev AlertTimeout = drop 1 prev.
Proof.
  destruct prev as [|a prev]; cbn [alertStep filter_index Nat.eqb negb drop]; [reflexivity|].
  rewrite drop_0. apply filter_index_shift. intros [|j] Hj; [lia|reflexivity].
Qed.

Lemma runAlerts_queue events prev :
  timersFollow (length prev) events = true →
  runAlerts events prev = drop (timeouts events) (prev ++ addedAlerts events).
Proof.
  unfold runAlerts. revert prev.
  induction events as [|[a|] events IH]; intros prev H;
    cbn [fold_left timersFollow addedAlerts timeouts] in *.
  - rewrite app_nil_r. reflexivity.
  - change (alertStep prev (AddAlert a)) with (prev ++ [a]).
    rewrite IH; [|rewrite length_app; cbn [length]; rewrite Nat.add_1_r; exact H].
    rewrite <- app_assoc. reflexivity.
  - destruct prev as [|x prev]; cbn [length] in H; [discriminate|].
    rewrite alertTimeout_head. cbn [drop app]. rewrite drop_0. apply IH, H.
Qed.

(** X17: an alert leaves when its own timer fires.  Whatever the
    order in which alerts are added and timers fire, as long as a timer
    fires after the alert that set it, the list shows the alerts added,
    in order, less as many of the oldest as timers have fired; it is
    empty once every timer has. *)
Theorem alerts_expire_oldest_first events :
  timersFollow 0 events = true →
  runAlerts events [] = drop (timeouts events) (addedAlerts events)
  ∧ (timeouts events = length (addedAlerts events) → runAlerts events [] = []).
Proof.
  intros H. pose proof (runAlerts_queue events [] H) as Hq. cbn [app] in Hq.
  split; [exact Hq|]. intros Hall. rewrite Hq, Hall. apply drop_all.
Qed.

Lemma alerts_expire_oldest_first_witness :
  runAlerts [AddAlert (MkAlert info "a"); AddAlert (MkAlert error "b"); AlertTimeout;
             AddAlert (MkAlert success "c")] []
  = [MkAlert error "b"; MkAlert success "c"].
Proof.
  exact (proj1 (alerts_expire_oldest_first
                  [AddAlert (MkAlert info "a"); AddAlert (MkAlert error "b"); AlertTimeout;
                   AddAlert (MkAlert success "c")] eq_refl)).
Defined.

(** ** Viewing a saved sheet *)

Lemma viewValue_shown c : truthy (viewValue c) = true ∨ viewValue c = of_Z 0.
Proof.
  unfold viewValue. destruct (truthy (parseFloat (cell_toString c))) eqn:E; auto.
Qed.

Lemma viewCells_shown row j headers acc :
  is_Some (get TotalHoldings acc) →
  Forall (λ kv : string * number, truthy kv.2 = true ∨ kv.2 = of_Z 0) acc →
  is_Some (get TotalHoldings (viewCells row j headers acc))
  ∧ Forall (λ kv : string * number, truthy kv.2 = true ∨ kv.2 = of_Z 0)
      (viewCells row j headers acc).
Proof.
  revert j acc. induction headers as [|h headers IH]; intros j acc Ht Hv;
    cbn [viewCells]; [split; assumption|].
  assert (Hset : ∀ k o,
            is_Some (get TotalHoldings o) →
            Forall (λ kv : string * number, truthy kv.2 = true ∨ kv.2 = of_Z 0) o →
            is_Some (get TotalHoldings (set k (viewValue (at_index row j)) o))
            ∧ Forall (λ kv : string * number, truthy kv.2 = true ∨ kv.2 = of_Z 0)
                (set k (viewValue (at_index row j)) o)).
  { intros k o Ho Hfo. split.
    - rewrite get_set. destruct (String.eqb k TotalHoldings); [eexists; reflexivity|exact Ho].
    - apply Forall_set; [apply viewValue_shown| |exact Hfo].
      intros k' v' _. apply viewValue_shown. }
  destruct (Hset (cell_toString h) acc Ht Hv) as [Ht1 Hv1].
  destruct (isTotalHoldings h); [|apply IH; assumption].
  destruct (Hset TotalHoldings _ Ht1 Hv1) as [Ht2 Hv2]. apply IH; assumption.
Qed.

Lemma viewRows_shown headers rows pivot :
  Forall is_Some rows → (rows ≠ [] → is_Some headers) →
  Forall (λ e : string * PivotRow,
            is_Some (get TotalHoldings e.2)
            ∧ Forall (λ kv : string * number, truthy kv.2 = true ∨ kv.2 = of_Z 0) e.2)
    pivot →
  ∃ pivot', viewRows headers rows pivot = Some pivot'
            ∧ Forall (λ e : string * PivotRow,
                        is_Some (get TotalHoldings e.2)
                        ∧ Forall (λ kv : string * number,
                                    truthy kv.2 = true ∨ kv.2 = of_Z 0) e.2)
                pivot'.
Proof.
  intros Hrows. revert pivot. induction Hrows as [|row rows Hrow _ IH]; intros pivot Hh Hp;
    cbn [viewRows]; [eauto|].
  destruct Hrow as [cells ->]. destruct Hh as [hs ->]; [discriminate|].
  apply IH; [intros _; eexists; reflexivity|].
  apply Forall_set; [|intros k' v' _|exact Hp]; cbn [snd];
    apply viewCells_shown; try (eexists; reflexivity); repeat constructor; right; reflexivity.
Qed.

(** X18: a sheet of which no row is missing is always shown, and
    what is shown holds no NaN: every row has its "Total Holdings", and
    every value of every row is a number other than 0 and NaN, or the 0
    that a cell which does not read as such a number is shown as. *)
Theorem viewFile_values jsonData :
  Forall is_Some jsonData →
  ∃ pivot, viewFile jsonData = Some pivot
           ∧ ∀ company row, get company pivot = Some row →
               is_Some (get TotalHoldings row)
               ∧ ∀ key v, get key row = Some v →
                   v ≠ NaN ∧ (truthy v = true ∨ v = of_Z 0).
Proof.
  intros Hall. destruct jsonData as [|headers rows]; cbn [viewFile].
  - exists []. split; [reflexivity|]. intros company row H. discriminate.
  - apply Forall_cons in Hall as [Hh Hrows].
    destruct (viewRows_shown headers rows [] Hrows (λ _, Hh) (Forall_nil_2 _))
      as (pivot & Hview & Hp).
    exists pivot. split; [exact Hview|]. intros company row Hrow.
    destruct (Forall_get _ _ _ _ Hp Hrow) as (k' & Ht & Hv). cbn [snd] in Ht, Hv.
    split; [exact Ht|]. intros key v Hkey.
    destruct (Forall_get _ _ _ _ Hv Hkey) as (k'' & Hshown). cbn [snd] in Hshown.
    split; [|exact Hshown]. intros ->. destruct Hshown as [H|H]; discriminate.
Qed.

Lemma viewFile_values_witness :
  ∃ pivot, viewFile savedSheet = Some pivot
           ∧ ∀ company row, get company pivot = Some row →
               is_Some (get TotalHoldings row)
               ∧ ∀ key v, get key row = Some v →
                   v ≠ NaN ∧ (truthy v = true ∨ v = of_Z 0).
Proof.
  apply (viewFile_values savedSheet). repeat constructor; eexists; reflexivity.
Defined.

Lemma viewCells_app row j a b acc :
  viewCells row j (a ++ b) acc = viewCells row (j + length a) b (viewCells row j a acc).
Proof.
  revert j acc. induction a as [|h a IH]; intros j acc; cbn [app length viewCells].
  - rewrite Nat.add_0_r. reflexivity.
  - rewrite IH. f_equal. lia.
Qed.

Lemma isTotalHoldings_key h : isTotalHoldings h = true → cell_toString h = TotalHoldings.
Proof.
  destruct h as [|s| |]; cbn; try discriminate. intros H. apply String.eqb_eq, H.
Qed.

Lemma viewCells_other_keys row j post acc :
  Forall (λ c, cell_toString c ≠ TotalHoldings) post →
  get TotalHoldings (viewCells row j post acc) = get TotalHoldings acc.
Proof.
  intros H. revert j acc. induction H as [|h post Hh _ IH]; intros j acc;
    cbn [viewCells]; [reflexivity|].
  destruct (isTotalHoldings h) eqn:E; [apply isTotalHoldings_key in E; contradiction|].
  rewrite IH. apply get_set_ne, Hh.
Qed.

(** X19: the total a viewed row shows is not computed from the
    owners' columns: it is what the row holds in the last column headed
    "Total Holdings" (the first column apart), read as every other
    value is. *)
Theorem viewRow_total headers row pre h post :
  headers = pre ++ h :: post →
  (1 ≤ length pre)%nat →
  cell_toString h = TotalHoldings →
  Forall (λ c, cell_toString c ≠ TotalHoldings) post →
  get TotalHoldings (viewRow headers row) = Some (viewValue (at_index row (length pre))).
Proof.
  intros -> Hpre Hh Hpost. unfold viewRow.
  destruct pre as [|p0 pre]; cbn [length] in Hpre; [lia|].
  cbn [app drop length]. rewrite drop_0, viewCells_app. cbn [viewCells].
  rewrite viewCells_other_keys by exact Hpost.
  replace (1 + length pre)%nat with (S (length pre)) by lia.
  rewrite Hh. destruct (isTotalHoldings h); apply get_set_eq.
Qed.

Lemma viewRow_total_witness :
  get TotalHoldings
    (viewRow [CStr "Company Name"; CStr "Alice"; CStr "Bob"; CStr "Total Holdings"]
       [CStr "Infosys"; CNum (of_Z 10); CNum (of_Z 5); CNum (of_Z 99)])
  = Some (of_Z 99).
Proof.
  exact (viewRow_total
           [CStr "Company Name"; CStr "Alice"; CStr "Bob"; CStr "Total Holdings"]
           [CStr "Infosys"; CNum (of_Z 10); CNum (of_Z 5); CNum (of_Z 99)]
           [CStr "Company Name"; CStr "Alice"; CStr "Bob"] (CStr "Total Holdings") []
           eq_refl ltac:(cbn; lia) eq_refl (Forall_nil_2 _)).
Defined.

(** ** Integers written out and read again *)

Lemma uint_all_digits u : all_chars is_digit (NilEmpty.string_of_uint u) = true.
Proof.
  induction u; cbn [NilEmpty.string_of_uint all_chars]; [reflexivity|..]; rewrite IHu; reflexivity.
Qed.

Lemma digits_value_uint_acc u acc :
  digits_value (Z.pos acc) (NilEmpty.string_of_uint u) = Z.pos (Pos.of_uint_acc u acc).
Proof.
  revert acc. induction u; intros acc; cbn [NilEmpty.string_of_uint digits_value Pos.of_uint_acc];
    [reflexivity|..];
    match goal with
    | |- digits_value ?x _ = _ =>
        match goal with
        | |- _ = Z.pos (Pos.of_uint_acc _ ?y) =>
            replace x with (Z.pos y) by (vm_compute (Z.of_N _); lia)
        end
    end; apply IHu.
Qed.

Lemma digits_value_uint u :
  digits_value 0 (NilEmpty.string_of_uint u) = Z.of_N (Pos.of_uint u).
Proof.
  induction u; cbn [NilEmpty.string_of_uint digits_value Pos.of_uint]; [reflexivity|exact IHu|..];
    apply (digits_value_uint_acc u).
Qed.

Lemma digits_shape n :
  ∃ c s, digits n = String c s ∧ is_digit c = true ∧ all_chars is_digit s = true.
Proof.
  unfold digits. pose proof (uint_all_digits (N.to_uint (Z.to_N n))) as H.
  destruct (N.to_uint (Z.to_N n)) as [|u|u|u|u|u|u|u|u|u|u];
    cbn [NilZero.string_of_uint NilEmpty.string_of_uint all_chars] in *;
    eexists _, _; (split; [reflexivity|]); split; try reflexivity;
    apply andb_prop in H as [_ H]; exact H.
Qed.

Lemma digits_value_digits m : 0 ≤ m → digits_value 0 (digits m) = m.
Proof.
  intros Hm. unfold digits.
  pose proof (DecimalN.Unsigned.of_to (Z.to_N m)) as Hof. unfold N.of_uint in Hof.
  assert (Hv : digits_value 0 (NilZero.string_of_uint (N.to_uint (Z.to_N m)))
               = Z.of_N (Pos.of_uint (N.to_uint (Z.to_N m)))).
  { destruct (N.to_uint (Z.to_N m)); try apply digits_value_uint. reflexivity. }
  rewrite Hv, Hof. apply Z2N.id, Hm.
Qed.

Lemma span_digits_all s : all_chars is_digit s = true → span_digits s = (s, "").
Proof.
  induction s as [|c s IH]; cbn [all_chars span_digits]; [reflexivity|]. intros H.
  apply andb_prop in H as [-> H]. rewrite (IH H). reflexivity.
Qed.

Lemma digit_code c : is_digit c = true → (48 ≤ code c ≤ 57)%N.
Proof.
  unfold is_digit, between. intros H. apply andb_prop in H as [H1 H2].
  apply N.leb_le in H1, H2. lia.
Qed.

Lemma digit_not_char c (x : ascii) :
  is_digit c = true → (code x <? 48)%N || (57 <? code x)%N = true → char_eqb c x = false.
Proof.
  intros Hc Hx. apply digit_code in Hc. unfold char_eqb. apply N.eqb_neq.
  apply orb_prop in Hx as [Hx|Hx]; apply N.ltb_lt in Hx; lia.
Qed.

Lemma digit_not_space c : is_digit c = true → is_space c = false.
Proof.
  intros Hc. apply digit_code in Hc. unfold is_space, between.
  repeat (apply orb_false_intro); try apply andb_false_intro2;
    try apply N.leb_gt; try apply N.eqb_neq; lia.
Qed.

Lemma str_length_app (a b : string) :
  String.length (a +:+ b) = (String.length a + String.length b)%nat.
Proof. induction a as [|c a IH]; cbn [String.append String.length]; [|rewrite IH]; reflexivity. Qed.

Lemma strip_zeros_length s : (String.length (strip_zeros s) ≤ String.length s)%nat.
Proof.
  induction s as [|c s IH]; cbn [strip_zeros]; [lia|].
  destruct (all_zero (String c s)); cbn [String.length]; lia.
Qed.

Lemma parseFloat_digits (neg : bool) m :
  0 ≤ m →
  parseFloat ((if neg then "-" else "") +:+ digits m)
  = Fin (Dec (if neg then - m else m) 0).
Proof.
  intros Hm. destruct (digits_shape m) as (c & s & E & Hc & Hs).
  pose proof (digits_value_digits m Hm) as Hv. rewrite E in Hv |- *.
  assert (Hsplit : split_sign (trimStart ((if neg then "-" else "") +:+ String c s))
                   = (neg, String c s)).
  { destruct neg; cbn [String.append trimStart].
    - reflexivity.
    - rewrite (digit_not_space c Hc). cbn [split_sign].
      rewrite !(digit_not_char c) by (exact Hc || reflexivity). reflexivity. }
  unfold parseFloat. rewrite Hsplit.
  assert (Hinf : startsWith "Infinity" (String c s) = false).
  { cbn [startsWith]. unfold char_eqb. apply digit_code in Hc.
    replace (code "I" =? code c)%N with false by (symmetry; apply N.eqb_neq; cbn; lia).
    reflexivity. }
  rewrite Hinf.
  assert (Hspan : span_digits (String c s) = (String c s, "")).
  { apply span_digits_all. cbn [all_chars]. rewrite Hc, Hs. reflexivity. }
  rewrite Hspan. cbn [is_empty andb]. rewrite str_app_nil_r, Hv.
  cbn [exponent_part String.length Z.of_nat Z.sub Z.leb Z.compare Z.opp Z.pow Z.pow_pos].
  change (0 - Z.of_nat 0) with 0. change (0 <=? 0) with true. cbv iota.
  change (10 ^ 0) with 1. rewrite Z.mul_1_r. reflexivity.
Qed.

Lemma toString_integer z :
  (numDigits z ≤ 21)%nat →
  toString (of_Z z) = (if z <? 0 then "-" else "") +:+ digits (Z.abs z).
Proof.
  unfold numDigits. intros Hd. cbn [toString of_Z]. unfold dec_toString. cbn [mant scale].
  destruct (Z.eqb_spec z 0) as [->|Hz]; [reflexivity|].
  cbn [strip_fraction].
  pose proof (strip_zeros_length (digits (Z.abs z))) as Hk.
  replace (_ <=? _) with true by (symmetry; apply Z.leb_le; cbn [Z.of_nat]; lia).
  replace (_ <=? 21) with true by (symmetry; apply Z.leb_le; cbn [Z.of_nat]; lia).
  reflexivity.
Qed.

Lemma parseFloat_toString_integer z :
  (numDigits z ≤ 21)%nat → parseFloat (toString (of_Z z)) = of_Z z.
Proof.
  intros Hd. rewrite (toString_integer z Hd), parseFloat_digits by lia.
  unfold of_Z. do 2 f_equal. destruct (Z.ltb_spec z 0); lia.
Qed.

(** X20: a numeric cell that holds an integer of 21 digits or fewer
    is shown as that integer: written out and read again, it is the
    same number. *)
Theorem view_integer_cell z :
  (numDigits z ≤ 21)%nat → viewValue (CNum (of_Z z)) = of_Z z.
Proof.
  intros Hd. unfold viewValue. cbn [cell_toString].
  rewrite (parseFloat_toString_integer z Hd). cbn [truthy of_Z mant].
  destruct (Z.eqb_spec z 0) as [->|Hz]; reflexivity.
Qed.

Lemma view_integer_cell_witness :
  viewValue (CNum (of_Z (-1200))) = of_Z (-1200).
Proof. apply (view_integer_cell (-1200)). vm_compute. lia. Defined.

(** X21: a quantity written as text with separating commas is read
    as the integer its digits spell: when the text without its commas
    is an optional minus sign and the digits of an integer [m] of 2^53
    at most, the quantity is [m], or [-m]. *)
Theorem parseTotal_integer_text t (neg : bool) m :
  0 ≤ m ≤ 2 ^ 53 →
  replaceAllChar "," "" t = (if neg then "-" else "") +:+ digits m →
  parseTotal (CStr t) = of_Z (if neg then - m else m).
Proof.
  intros [Hm _] Ht. unfold parseTotal, String_or. cbn [cell_truthy cell_toString].
  destruct t as [|c t].
  - exfalso. cbn in Ht. destruct (digits_shape m) as (c & s & E & _).
    rewrite E in Ht. destruct neg; discriminate.
  - cbn [is_empty negb]. rewrite Ht, parseFloat_digits by exact Hm.
    cbn [truthy mant]. unfold of_Z.
    destruct (Z.eqb_spec (if neg then - m else m) 0) as [->|Hz]; reflexivity.
Qed.

Lemma parseTotal_integer_text_witness :
  parseTotal (CStr "1,234,567") = of_Z 1234567.
Proof.
  apply (parseTotal_integer_text "1,234,567" false 1234567); [lia|reflexivity].
Defined.

(** ** No eligible row is lost *)

Lemma slice_from_elem {A} (start : Z) (l : list A) (i : nat) (x : A) :
  0 ≤ start ≤ Z.of_nat i → l !! i = Some x → x ∈ slice_from start l.
Proof.
  intros Hs Hi. unfold slice_from. rewrite (proj2 (Z.ltb_ge _ _)) by lia.
  apply list_elem_of_lookup. exists (i - Z.to_nat start)%nat.
  rewrite lookup_drop. rewrite <- Hi. f_equal. lia.
Qed.

Lemma extractRow_eligible m owner cells :
  (Nat.max (companyColIndex m) (totalColIndex m) < length cells)%nat →
  isSummaryName (toLowerCase (rowCompanyName m cells)) = false →
  (1 < String.length (rowCompanyName m cells))%nat →
  nonzero (rowQuantity m cells) = true →
  extractRow m owner (Some cells)
  = Some (Holding (rowCompanyName m cells) (rowQuantity m cells) owner).
Proof.
  intros Hlen Hsum Hname Hq. unfold extractRow.
  rewrite (proj2 (Nat.leb_gt _ _)) by exact Hlen. rewrite Hsum, Hq.
  rewrite (proj2 (Nat.ltb_lt _ _)) by exact Hname.
  destruct (rowCompanyName m cells); [cbn in Hname; lia|reflexivity].
Qed.

Lemma detectFormat_start_nonneg rawData : 0 ≤ dataStartRow (detectFormat rawData).
Proof.
  unfold detectFormat.
  destruct (Z.ltb_spec (dataStartRow (scanRows 0 (take (Nat.min 15 (length rawData)) rawData)
                                         (Mapping (-1) 1 9))) 0);
    cbn [dataStartRow]; lia.
Qed.

(** X22: no eligible row is lost between the detector and the
    records of a file: a row at or after the start row the detector
    answers, long enough for the two columns it answers, with a name of
    more than one character that is no summary name and a quantity
    other than 0, gives a record of the file, under the owner read off
    the file's name. *)
Theorem eligible_row_is_extracted fname rawData (i : nat) cells :
  let m := detectFormat rawData in
  dataStartRow m ≤ Z.of_nat i →
  rawData !! i = Some (Some cells) →
  (Nat.max (companyColIndex m) (totalColIndex m) < length cells)%nat →
  isSummaryName (toLowerCase (rowCompanyName m cells)) = false →
  (1 < String.length (rowCompanyName m cells))%nat →
  nonzero (rowQuantity m cells) = true →
  Holding (rowCompanyName m cells) (rowQuantity m cells) (extractOwnerFromFilename fname)
    ∈ fst (processFile (MkFile fname (inl rawData))).
Proof.
  intros m Hi Hrow Hlen Hsum Hname Hq. unfold processFile. cbn [content name fst].
  fold m. unfold extractRecords. apply list_elem_of_omap.
  exists (Some cells). split.
  - apply (slice_from_elem _ _ i); [|exact Hrow].
    pose proof (detectFormat_start_nonneg rawData). fold m in H. lia.
  - apply extractRow_eligible; assumption.
Qed.

Lemma eligible_row_is_extracted_witness :
  Holding "Infosys" (of_Z 1200) "report"
    ∈ fst (processFile (MkFile "report.csv" (inl sampleSheet))).
Proof.
  apply (eligible_row_is_extracted "report.csv" sampleSheet 3
           [CNum (of_Z 1); CStr "Infosys"; CStr "F1"; CStr "1,200"]).
  - vm_compute. discriminate.
  - reflexivity.
  - vm_compute. lia.
  - reflexivity.
  - vm_compute. lia.
  - reflexivity.
Defined.

(** ** Sorting by company name *)



(** ** Export *)

Lemma or0_finite_same x : is_finite x = true → same_number (or0 (Some x)) x.
Proof.
  destruct x as [| |d]; cbn; try discriminate. intros _.
  destruct (Z.eqb_spec (mant d) 0) as [H0|H0]; cbn; [|reflexivity].
  rewrite (dec_value_zero d H0). reflexivity.
Qed.

(** X24: what [exportToCSV] puts into its rows is what the records add
    up to.  Over records with integer quantities whose magnitudes add
    up to 2^53 at most, with companies and owners that are no property
    names of [Object.prototype] and owners other than "Total Holdings",
    the rows built from the table of the records are one for each of its
    companies, each as long as the header; a row holds the company, then
    under each owner column the sum of the quantities of the records of
    that company and owner (0 when there is none), then the sum of the
    quantities of all the records of the company. *)
Theorem exported_cells_are_sums records :
  safeRecords records →
  length (exportRows (buildPivot records)) = length (buildPivot records)
  ∧ ∀ company data, (company, data) ∈ entries (buildPivot records) →
      ∃ values total,
        exportRow (getOwners (buildPivot records)) (company, data)
        = CStr company :: map CNum values ++ [CNum total]
        ∧ length (exportRow (getOwners (buildPivot records)) (company, data))
          = length (exportHeaders (buildPivot records))
        ∧ Forall2 (λ owner v,
                     same_number v (sumQuantities (cellRecords company owner records)))
            (getOwners (buildPivot records)) values
        ∧ same_number total (sumQuantities (companyRecords company records)).
Proof.
  intros Hsafe. pose proof (safeRecords_regular _ Hsafe) as Hreg. split.
  { unfold exportRows. rewrite length_map. apply Permutation_length, entries_perm. }
  intros company data Hin.
  assert (Hget : get company (buildPivot records) = Some data).
  { apply elem_get_Some; [apply buildPivot_NoDup|].
    rewrite <- (entries_perm (buildPivot records)). exact Hin. }
  pose proof (buildPivot_tableIsSums records Hreg company) as Ht. rewrite Hget in Ht.
  destruct Ht as [_ [Htot Hown]].
  destruct (get TotalHoldings data) as [total|] eqn:E; [|contradiction].
  exists (map (λ owner, or0 (get owner data)) (getOwners (buildPivot records))), total.
  split; [|split; [|split]].
  - unfold exportRow. cbn [fst snd]. rewrite E, map_map. reflexivity.
  - unfold exportRow, exportHeaders. cbn [length]. rewrite !length_app, length_map.
    reflexivity.
  - apply Forall2_fmap_r, Forall_Forall2_diag, Forall_forall. intros owner Ho.
    destruct (getOwners_elem (buildPivot records)) as (_ & Hno & _).
    assert (Hne : owner ≠ TotalHoldings) by (intros ->; exact (Hno Ho)).
    specialize (Hown owner Hne). unfold compose.
    destruct (get owner data) as [v|].
    + destruct Hown as [_ Hv].
      eapply same_number_trans; [exact (or0_same (Some v) (Some _) Hv)|].
      apply or0_finite_same, sumQuantities_finite, Forall_List_filter,
        regularRecord_finite, Hreg.
    + rewrite Hown. apply same_number_refl.
  - exact Htot.
Qed.

Lemma exported_cells_are_sums_witness :
  exportRows (buildPivot sampleRecords)
  = [[CStr "Infosys"; CNum (of_Z 100); CNum (of_Z 50); CNum (of_Z 150)];
     [CStr "TCS"; CNum (of_Z 0); CNum (of_Z 20); CNum (of_Z 20)]]
  ∧ length (exportRows (buildPivot sampleRecords)) = length (buildPivot sampleRecords).
Proof.
  split; [reflexivity|].
  exact (proj1 (exported_cells_are_sums sampleRecords sampleRecords_safe)).
Defined.

(** ** The Supabase client *)

Lemma getSupabaseClients_cached {C} (createClient : string → string → C) env n c k :
  getSupabaseClients C createClient env n (MkModule C (Some c) k)
  = (MkModule C (Some c) k, replicate n (inl c)).
Proof.
  induction n as [|n IH]; cbn [getSupabaseClients replicate]; [reflexivity|].
  unfold getSupabaseClient. cbn [supabaseClient]. rewrite IH. reflexivity.
Qed.

Lemma getSupabaseClients_missing {C} (createClient : string → string → C) env n k :
  isSupabaseConfigured env = false →
  getSupabaseClients C createClient env n (MkModule C None k)
  = (MkModule C None k, replicate n (inr missingVariables)).
Proof.
  intros Hc. induction n as [|n IH]; cbn [getSupabaseClients replicate]; [reflexivity|].
  unfold getSupabaseClient. cbn [supabaseClient].
  rewrite <- negb_andb. fold (isSupabaseConfigured env). rewrite Hc. cbn [negb].
  rewrite IH. reflexivity.
Qed.

(** X25: [isSupabaseConfigured] tells what [getSupabaseClient] does.
    When it answers yes, any number of calls return one and the same
    client, made from the two variables by the first call and by no
    other; when it answers no, every call throws and no client is ever
    made. *)
Theorem supabase_client_made_once {C} (createClient : string → string → C) env n :
  getSupabaseClients C createClient env (S n) (MkModule C None 0)
  = if isSupabaseConfigured env
    then
      let c := createClient (default "" (supabaseUrl env))
                 (default "" (supabaseAnonKey env)) in
      (MkModule C (Some c) 1, replicate (S n) (inl c))
    else (MkModule C None 0, replicate (S n) (inr missingVariables)).
Proof.
  destruct (isSupabaseConfigured env) eqn:Hc;
    [|apply getSupabaseClients_missing, Hc].
  cbn [getSupabaseClients replicate]. unfold getSupabaseClient. cbn [supabaseClient created].
  rewrite <- negb_andb. fold (isSupabaseConfigured env). rewrite Hc. cbn [negb].
  rewrite getSupabaseClients_cached. reflexivity.
Qed.
